(** * tp-lorem: the placeholder-text generator of the tp component library

    A shallow embedding of

      - [packages/components/src/utilities/maths.ts]
        ([clampRandom], [seededNumberGenerator]), and
      - [packages/components/src/components/lorem/lorem.ts]
        (the [TpLorem] methods [generateWords], [getNumberWithinRange],
        [generateList], [generateParagraphs], [generateSentences],
        [generateTitle], [generateContent]),

    together with the properties of the generator that its specification
    states.  The file also embeds [clamp] and [randomInteger] of [maths.ts],
    [escapeHtml], [unescapeHtml], [dedent] and [capitalize] of
    [utilities/strings.ts], the fields [tagname] and [basename] of [TpBase],
    [normalizeLinesToWords] of [scripts/wordsFileToString.ts] and
    [sanitizeChunkName] of [vite.config.ts], with properties read off their
    code.

    Conventions of the embedding.

      - A JavaScript number is [NaN], one of the two infinities, or a finite
        value.  Finite values are exact rationals: rounding to binary64 and
        overflow are not modelled, and [-0] is identified with [0].  A
        statement about the value that is computed is therefore made under
        the bounds within which the platform computes that value exactly, or
        within a margin that does not change the result
        ([MAX_SAFE_INTEGER], [safe_number], [small_integer]), and a statement
        about the generator names the contract of its values, [unit_stream],
        as a hypothesis.
      - A JavaScript string is a [string] of 8-bit characters; case mapping
        and white space are those of ASCII.  A statement that depends on
        either is made of 7-bit text.
      - [undefined] array elements are [None].
      - A method that draws random numbers is a function of the generator
        state which returns its result with the next state, or [None] when the
        call returns no value (a [TypeError] is thrown, or a loop never ends).
      - [Math.sin], [Math.random], [Number.parseFloat] and the word list of
        [dictionary.js], which is not part of the sources at hand, are
        parameters.  [Number] on a string follows the [StringToNumber]
        grammar of ECMAScript. *)

From Stdlib Require Import ZArith NArith QArith Qround Bool List Ascii String Lia.
From Stdlib Require Import Decimal DecimalFacts DecimalPos DecimalN DecimalString.
From Stdlib Require Qcanon.
Import ListNotations.

Local Open Scope list_scope.
Local Open Scope string_scope.

(** ** JavaScript numbers *)

Module JsNumber.

Inductive number : Type :=
| NaN
| PosInf
| NegInf
| Fin (q : Q).

Definition of_Z (z : Z) : number := Fin (inject_Z z).
Definition of_nat (n : nat) : number := of_Z (Z.of_nat n).

Definition zero : number := of_Z 0.
Definition one : number := of_Z 1.

(** [ToBoolean] on a number: [NaN] and zero are falsy. *)
Definition truthy (x : number) : bool :=
  match x with
  | NaN => false
  | PosInf | NegInf => true
  | Fin q => negb (Qeq_bool q 0)
  end.

(** [x || 0]. *)
Definition or_zero (x : number) : number :=
  if truthy x then x else zero.

Definition neg (x : number) : number :=
  match x with
  | NaN => NaN
  | PosInf => NegInf
  | NegInf => PosInf
  | Fin q => Fin (Qopp q)
  end.

Definition add (x y : number) : number :=
  match x, y with
  | NaN, _ | _, NaN => NaN
  | PosInf, NegInf | NegInf, PosInf => NaN
  | PosInf, _ | _, PosInf => PosInf
  | NegInf, _ | _, NegInf => NegInf
  | Fin p, Fin q => Fin (Qred (p + q))
  end.

Definition sub (x y : number) : number := add x (neg y).

(** The sign of a product with an infinity; a zero factor gives [NaN]. *)
Definition signed_inf (positive : bool) (q : Q) : number :=
  match Qcompare q 0 with
  | Eq => NaN
  | Gt => if positive then PosInf else NegInf
  | Lt => if positive then NegInf else PosInf
  end.

Definition mul (x y : number) : number :=
  match x, y with
  | NaN, _ | _, NaN => NaN
  | PosInf, PosInf | NegInf, NegInf => PosInf
  | PosInf, NegInf | NegInf, PosInf => NegInf
  | PosInf, Fin q | Fin q, PosInf => signed_inf true q
  | NegInf, Fin q | Fin q, NegInf => signed_inf false q
  | Fin p, Fin q => Fin (Qred (p * q))
  end.

(** [Math.floor]. *)
Definition floor (x : number) : number :=
  match x with
  | Fin q => of_Z (Qfloor q)
  | _ => x
  end.

(** [x < y]; any comparison with [NaN] is false. *)
Definition lt (x y : number) : bool :=
  match x, y with
  | NaN, _ | _, NaN => false
  | _, NegInf => false
  | PosInf, _ => false
  | NegInf, _ => true
  | _, PosInf => true
  | Fin p, Fin q => match Qcompare p q with Lt => true | _ => false end
  end.

(** [x === y] on numbers. *)
Definition strict_eq (x y : number) : bool :=
  match x, y with
  | PosInf, PosInf | NegInf, NegInf => true
  | Fin p, Fin q => Qeq_bool p q
  | _, _ => false
  end.

(** The number of times the body of
    [for (let i = 0; i < bound; i++)] runs: none for [NaN], [-Infinity] and
    bounds that are not positive, the least integer not below [bound] for a
    positive finite bound.  With [bound = Infinity] the loop never ends. *)
Definition trip_count (bound : number) : option nat :=
  match bound with
  | NaN | NegInf => Some 0%nat
  | PosInf => None
  | Fin q => Some (Z.to_nat (Qceiling q))
  end.

(** A draw as [Math.random] promises it: a finite value in [[0, 1)]. *)
Definition in_unit (x : number) : Prop :=
  match x with
  | Fin q => (0 <= q)%Q /\ (q < 1)%Q
  | _ => False
  end.

Definition is_finite (x : number) : bool :=
  match x with
  | Fin _ => true
  | _ => false
  end.

End JsNumber.

Import JsNumber.

(** ** JavaScript strings *)

Module JsString.

(** [c.toUpperCase()] for one character. *)
Definition toUpperCase_char (c : ascii) : ascii :=
  let n := nat_of_ascii c in
  if (97 <=? n)%nat && (n <=? 122)%nat then ascii_of_nat (n - 32) else c.

(** [s.charAt(0).toUpperCase() + s.slice(1)]. *)
Definition capitalize (s : string) : string :=
  match s with
  | EmptyString => EmptyString
  | String c rest => String (toUpperCase_char c) rest
  end.

(** [s.includes(c)] for a one-character needle. *)
Fixpoint includes (c : ascii) (s : string) : bool :=
  match s with
  | EmptyString => false
  | String a rest => Ascii.eqb a c || includes c rest
  end.

(** [s.split(c)] for a one-character separator. *)
Fixpoint split (c : ascii) (s : string) : list string :=
  match s with
  | EmptyString => [EmptyString]
  | String a rest =>
      if Ascii.eqb a c then EmptyString :: split c rest
      else match split c rest with
           | [] => [String a EmptyString]
           | w :: ws => String a w :: ws
           end
  end.

(** [parts.join(sep)] on strings. *)
Fixpoint join (sep : string) (parts : list string) : string :=
  match parts with
  | [] => EmptyString
  | [w] => w
  | w :: ws => w ++ sep ++ join sep ws
  end.

(** White space: TAB, LF, VT, FF, CR and SPACE. *)
Definition is_space (c : ascii) : bool :=
  let n := nat_of_ascii c in
  ((9 <=? n)%nat && (n <=? 13)%nat) || (n =? 32)%nat.

Fixpoint trimStart (s : string) : string :=
  match s with
  | EmptyString => EmptyString
  | String c rest => if is_space c then trimStart rest else s
  end.

Fixpoint trimEnd (s : string) : string :=
  match s with
  | EmptyString => EmptyString
  | String c rest =>
      match trimEnd rest with
      | EmptyString => if is_space c then EmptyString else String c EmptyString
      | rest' => String c rest'
      end
  end.

Definition trim (s : string) : string := trimEnd (trimStart s).

Definition is_upper (c : ascii) : bool :=
  let n := nat_of_ascii c in (65 <=? n)%nat && (n <=? 90)%nat.

Definition is_lower (c : ascii) : bool :=
  let n := nat_of_ascii c in (97 <=? n)%nat && (n <=? 122)%nat.

Fixpoint all_chars (p : ascii -> bool) (s : string) : bool :=
  match s with
  | EmptyString => true
  | String c rest => p c && all_chars p rest
  end.

(** A word of lower-case letters, at least one. *)
Definition lowercase_word (s : string) : bool :=
  match s with
  | EmptyString => false
  | _ => all_chars is_lower s
  end.

Definition starts_upper (s : string) : bool :=
  match s with
  | EmptyString => false
  | String c _ => is_upper c
  end.

End JsString.

Import JsString.

(** ** [Number(string)] *)

Module JsToNumber.

Definition digit_of (radix : N) (c : ascii) : option N :=
  let n := N_of_ascii c in
  let d :=
    if (48 <=? n)%N && (n <=? 57)%N then Some (n - 48)%N
    else if (97 <=? n)%N && (n <=? 102)%N then Some (n - 87)%N
    else if (65 <=? n)%N && (n <=? 70)%N then Some (n - 55)%N
    else None in
  match d with
  | Some v => if (v <? radix)%N then Some v else None
  | None => None
  end.

(** The longest run of digits at the head of [s]: its value on top of [acc],
    how many digits were read on top of [cnt], and the rest of [s]. *)
Fixpoint span_digits (radix : N) (acc : N) (cnt : nat) (s : string)
  : N * nat * string :=
  match s with
  | EmptyString => (acc, cnt, s)
  | String c rest =>
      match digit_of radix c with
      | Some d => span_digits radix (acc * radix + d)%N (S cnt) rest
      | None => (acc, cnt, s)
      end
  end.

(** A string that is a run of digits, at least one, and nothing else. *)
Definition all_digits (radix : N) (s : string) : option N :=
  match span_digits radix 0 0 s with
  | (v, S _, EmptyString) => Some v
  | _ => None
  end.

(** [ExponentPart]: [e] or [E], an optional sign, digits.  No exponent
    part counts as exponent 0. *)
Definition exponent_part (s : string) : option Z :=
  match s with
  | EmptyString => Some 0%Z
  | String c rest =>
      if Ascii.eqb c "e" || Ascii.eqb c "E" then
        match rest with
        | EmptyString => None
        | String sign ds =>
            if Ascii.eqb sign "+" then option_map Z.of_N (all_digits 10 ds)
            else if Ascii.eqb sign "-" then
              option_map (fun n => Z.opp (Z.of_N n)) (all_digits 10 ds)
            else option_map Z.of_N (all_digits 10 rest)
        end
      else None
  end.

(** The value of the digits [i], the [nf] fraction digits [f] and the
    exponent [e]. *)
Definition decimal_value (i f : N) (nf : nat) (e : Z) : Q :=
  Qred ((inject_Z (Z.of_N i) + inject_Z (Z.of_N f) / inject_Z (10 ^ Z.of_nat nf))
        * Qpower (inject_Z 10) e).

(** [StrUnsignedDecimalLiteral] without [Infinity]: digits, an optional
    point followed by digits, at least one digit in all, and an optional
    exponent part. *)
Definition unsigned_decimal (s : string) : option Q :=
  let '(i, ni, r1) := span_digits 10 0 0 s in
  let '(f, nf, r2) :=
    match r1 with
    | EmptyString => (0%N, O, r1)
    | String c r => if Ascii.eqb c "." then span_digits 10 0 0 r else (0%N, O, r1)
    end in
  match (ni + nf)%nat with
  | O => None
  | _ => option_map (decimal_value i f nf) (exponent_part r2)
  end.

Definition unsigned_literal (s : string) : option number :=
  if String.eqb s "Infinity" then Some PosInf
  else option_map Fin (unsigned_decimal s).

(** [StrDecimalLiteral]: an optional sign and an unsigned literal. *)
Definition decimal_literal (s : string) : option number :=
  match s with
  | EmptyString => None
  | String c rest =>
      if Ascii.eqb c "+" then unsigned_literal rest
      else if Ascii.eqb c "-" then option_map neg (unsigned_literal rest)
      else unsigned_literal s
  end.

(** [NonDecimalIntegerLiteral]: [0b], [0o] and [0x] literals. *)
Definition non_decimal_literal (s : string) : option number :=
  match s with
  | String z (String p ds) =>
      let radix :=
        if negb (Ascii.eqb z "0") then None
        else if Ascii.eqb p "b" || Ascii.eqb p "B" then Some 2%N
        else if Ascii.eqb p "o" || Ascii.eqb p "O" then Some 8%N
        else if Ascii.eqb p "x" || Ascii.eqb p "X" then Some 16%N
        else None in
      match radix with
      | Some r => option_map (fun n => of_Z (Z.of_N n)) (all_digits r ds)
      | None => None
      end
  | _ => None
  end.

(** [Number(s)]: white space around the literal is dropped, the empty
    string is [0], and a string that is no numeric literal is [NaN]. *)
Definition Number (s : string) : number :=
  let t := trim s in
  match t with
  | EmptyString => zero
  | _ =>
      match decimal_literal t with
      | Some v => v
      | None =>
          match non_decimal_literal t with
          | Some v => v
          | None => NaN
          end
      end
  end.

(** [Number(undefined)] is [NaN]. *)
Definition Number_opt (s : option string) : number :=
  match s with
  | Some s => Number s
  | None => NaN
  end.

End JsToNumber.

Import JsToNumber.

(** ** [utilities/maths.ts] *)

Module Maths.

(** [clampRandom(value, min, max)]:
    [Math.floor(value * (max - min + 1)) + min]. *)
Definition clampRandom (value min max : number) : number :=
  add (floor (mul value (add (sub max min) one))) min.

Section SeededNumberGenerator.

(** [Math.sin]. *)
Variable sin : number -> number.

(** One call of the closure that [seededNumberGenerator] returns, on the
    captured variable [currentSeed]: the value returned and the new value
    of [currentSeed]. *)
Definition seeded_step (currentSeed : number) : number * number :=
  let currentSeed := mul (sin currentSeed) (of_Z 10000) in
  let currentSeed := sub currentSeed (floor currentSeed) in
  (currentSeed, currentSeed).

End SeededNumberGenerator.

End Maths.

Import Maths.

(** ** [components/lorem/lorem.ts] *)

Module Lorem.

(** [number | string], the type of [length], [wordsPerSentence] and
    [sentencesPerParagraph]. *)
Inductive size : Type :=
| Num (n : number)
| Str (s : string).

(** The [seed] property: not set, a number, or (outside its declared type)
    some other value, given by its string conversion. *)
Inductive seed_value : Type :=
| SeedUndefined
| SeedNumber (n : number)
| SeedOther (s : string).

(** The reactive properties of a [TpLorem] element. *)
Record TpLorem : Type := mkTpLorem {
  type : string;
  length : size;
  seed : seed_value;
  wordsPerSentence : size;
  sentencesPerParagraph : size
}.

(** The property defaults of the class; [seed] is unset. *)
Definition defaults : TpLorem :=
  {| type := "paragraph";
     length := Str "3-5";
     seed := SeedUndefined;
     wordsPerSentence := Str "4-16";
     sentencesPerParagraph := Str "3-6" |}.

Definition with_type (t : string) (c : TpLorem) : TpLorem :=
  mkTpLorem t (length c) (seed c) (wordsPerSentence c) (sentencesPerParagraph c).
Definition with_length (l : size) (c : TpLorem) : TpLorem :=
  mkTpLorem (type c) l (seed c) (wordsPerSentence c) (sentencesPerParagraph c).
Definition with_seed (s : seed_value) (c : TpLorem) : TpLorem :=
  mkTpLorem (type c) (length c) s (wordsPerSentence c) (sentencesPerParagraph c).
Definition with_wordsPerSentence (w : size) (c : TpLorem) : TpLorem :=
  mkTpLorem (type c) (length c) (seed c) w (sentencesPerParagraph c).
Definition with_sentencesPerParagraph (p : size) (c : TpLorem) : TpLorem :=
  mkTpLorem (type c) (length c) (seed c) (wordsPerSentence c) p.

(** The state behind [this.generateNumber]: the captured [currentSeed] of the
    seeded closure, or the number of calls already made to [Math.random]. *)
Inductive NumberGenerator : Type :=
| Seeded (currentSeed : number)
| Unseeded (calls : nat).

(** A method that may call [this.generateNumber()]. *)
Definition Gen (A : Type) : Type := NumberGenerator -> option (A * NumberGenerator).

Definition ret {A} (a : A) : Gen A := fun g => Some (a, g).

Definition bind {A B} (m : Gen A) (k : A -> Gen B) : Gen B :=
  fun g => match m g with
           | Some (a, g') => k a g'
           | None => None
           end.

(** No value is returned: an exception, or a loop without end. *)
Definition abort {A} : Gen A := fun _ => None.

Notation "x <- m ;; k" := (bind m (fun x => k))
  (at level 61, m at next level, right associativity).

(** [for (let i = 0; i < n; i++) acc = body(acc)] for a trip count [n]. *)
Fixpoint iterate {A} (n : nat) (body : A -> Gen A) (acc : A) : Gen A :=
  match n with
  | O => ret acc
  | S n' => acc' <- body acc ;; iterate n' body acc'
  end.

(** [for (let i = 0; i < bound; i++) acc = body(acc)]. *)
Definition for_upto {A} (bound : number) (body : A -> Gen A) (acc : A) : Gen A :=
  match trip_count bound with
  | Some n => iterate n body acc
  | None => abort
  end.

(** [`${word}`] for an array element. *)
Definition to_text (word : option string) : string :=
  match word with
  | Some w => w
  | None => "undefined"
  end.

(** [words.join(' ')]: [undefined] elements are joined as empty strings. *)
Definition join_words (words : list (option string)) : string :=
  join " " (map (fun w => match w with Some s => s | None => EmptyString end) words).

Definition commaFrequency : number := of_Z 10.

Section Component.

(** [Math.sin]. *)
Variable sin : number -> number.
(** [Math.random]: the value its [k]-th call returns during the run. *)
Variable random : nat -> number.
(** [Number.parseFloat]. *)
Variable parseFloat : string -> number.
(** The word list exported by [dictionary.js]. *)
Variable DICTIONARY : list string.

(** [this.generateNumber()]. *)
Definition generateNumber : Gen number :=
  fun g =>
    match g with
    | Seeded currentSeed =>
        let '(value, currentSeed') := seeded_step sin currentSeed in
        Some (value, Seeded currentSeed')
    | Unseeded calls => Some (random calls, Unseeded (S calls))
    end.

(** [DICTIONARY[index]]: [undefined] unless [index] is an integer within
    the array. *)
Definition DICTIONARY_at (index : number) : option string :=
  match index with
  | Fin q =>
      if Qeq_bool q (inject_Z (Qfloor q)) && (0 <=? Qfloor q)%Z
      then nth_error DICTIONARY (Z.to_nat (Qfloor q))
      else None
  | _ => None
  end.

Definition generateWords (length : number) : Gen (list (option string)) :=
  for_upto length
    (fun words =>
       value <- generateNumber ;;
       let index :=
         clampRandom value zero (sub (of_nat (List.length DICTIONARY)) one) in
       ret (words ++ [DICTIONARY_at index])%list)
    [].

Definition getNumberWithinRange (range : size) : Gen number :=
  match range with
  | Num n => ret (or_zero n)
  | Str s =>
      if negb (includes "-" s) then ret (or_zero (Number s))
      else
        let parsedRange := split "-" s in
        let min := or_zero (Number_opt (nth_error parsedRange 0)) in
        let max := or_zero (Number_opt (nth_error parsedRange 1)) in
        value <- generateNumber ;;
        ret (clampRandom value min max)
  end.

(** [for (const word of words) title.push(...)] of [generateTitle];
    [word.charAt] throws on [undefined]. *)
Fixpoint capitalize_all (words : list (option string)) (title : list string)
  : Gen (list string) :=
  match words with
  | [] => ret title
  | Some word :: rest => capitalize_all rest (title ++ [capitalize word])%list
  | None :: _ => abort
  end.

Definition generateTitle (this : TpLorem) : Gen string :=
  numWords <- getNumberWithinRange (length this) ;;
  words <- generateWords numWords ;;
  title <- capitalize_all words [] ;;
  ret (join " " title).

Definition generateList (this : TpLorem) : Gen string :=
  numItems <- getNumberWithinRange (length this) ;;
  items <- for_upto numItems
    (fun items =>
       numWords <- getNumberWithinRange (wordsPerSentence this) ;;
       words <- generateWords numWords ;;
       let item := join_words words in
       if String.eqb (type this) "dl" then
         title <- generateTitle this ;;
         ret (items ++ "<dt>" ++ title ++ "</dt><dd>" ++ capitalize item ++ "</dd>")
       else
         ret (items ++ "<li>" ++ capitalize item ++ "</li>"))
    EmptyString ;;
  ret ("<" ++ type this ++ ">" ++ items ++ "</" ++ type this ++ ">").

(** The inner loop of [generateSentences], from index [j] on: [rest] holds
    [words[j]], [words[j+1]], ... and [len] is [words.length]. *)
Fixpoint sentence_loop (len : nat) (j : nat) (rest : list (option string))
    (sentence : string) : Gen string :=
  match rest with
  | [] => ret sentence
  | word :: rest' =>
      if (j =? 0)%nat then
        match word with
        | Some w => sentence_loop len (S j) rest' (sentence ++ capitalize w)
        | None => abort
        end
      else
        sentence <-
          (if (Z.of_nat j <? Z.of_nat len - 3)%Z then
             value <- generateNumber ;;
             let addComma :=
               strict_eq (clampRandom value zero commaFrequency) zero in
             ret (if addComma then sentence ++ ", " else sentence)
           else ret sentence) ;;
        sentence_loop len (S j) rest' (sentence ++ " " ++ to_text word)
  end.

Definition generateSentences (this : TpLorem) : Gen string :=
  numSentences <- getNumberWithinRange (length this) ;;
  sentences <- for_upto numSentences
    (fun sentences =>
       numWords <- getNumberWithinRange (wordsPerSentence this) ;;
       words <- generateWords numWords ;;
       sentence <- sentence_loop (List.length words) 0 words EmptyString ;;
       ret (sentences ++ sentence ++ ". "))
    EmptyString ;;
  ret (trim sentences).

Definition generateParagraphs (this : TpLorem) : Gen string :=
  numParagraphs <- getNumberWithinRange (length this) ;;
  for_upto numParagraphs
    (fun paragraphs =>
       sentences <- generateSentences this ;;
       ret (paragraphs ++ "<p>" ++ sentences ++ "</p>"))
    EmptyString.

(** The generator that [generateContent] installs in [this.generateNumber]. *)
Definition install_generator (this : TpLorem) : NumberGenerator :=
  let seed :=
    match seed this with
    | SeedNumber n => n
    | SeedOther s => parseFloat s
    | SeedUndefined => parseFloat "undefined"
    end in
  match Lorem.seed this with
  | SeedUndefined => Unseeded 0
  | _ => Seeded seed
  end.

(** [generateContent()]: the string returned, if the call returns. *)
Definition generateContent (this : TpLorem) : option string :=
  let g := install_generator this in
  let content :=
    if String.eqb (type this) "title" then generateTitle this g
    else if String.eqb (type this) "sentence" then generateSentences this g
    else if String.eqb (type this) "paragraph" then generateParagraphs this g
    else if String.eqb (type this) "ol" || String.eqb (type this) "ul"
            || String.eqb (type this) "dl" then generateList this g
    else Some (EmptyString, g) in
  option_map fst content.

End Component.

End Lorem.

Import Lorem.

(** ** More of [utilities/maths.ts] *)

Module MathsUtil.

(** [clamp(value, min, max)]; [value > max] is [max < value]. *)
Definition clamp (value min max : number) : number :=
  if lt value min then min
  else if lt max value then max
  else value.

(** [randomInteger(min, max)], for the value [random] that its call of
    [Math.random] returns. *)
Definition randomInteger (random : number) (min max : number) : number :=
  add (floor (mul random (add (sub max min) one))) min.

End MathsUtil.

(** ** More string operations of the platform *)

Module JsText.

Definition LF : ascii := "010"%char.
Definition CR : ascii := "013"%char.
Definition NUL : ascii := "000"%char.
(** The double quote. *)
Definition quote : ascii := "034"%char.

(** [c.toLowerCase()] for one character. *)
Definition toLowerCase_char (c : ascii) : ascii :=
  let n := nat_of_ascii c in
  if (65 <=? n)%nat && (n <=? 90)%nat then ascii_of_nat (n + 32) else c.

Fixpoint toLowerCase (s : string) : string :=
  match s with
  | EmptyString => EmptyString
  | String c rest => String (toLowerCase_char c) (toLowerCase rest)
  end.

(** [s.slice(n)] for [n >= 0]. *)
Fixpoint slice_from (n : nat) (s : string) : string :=
  match n, s with
  | O, _ => s
  | S n', String _ rest => slice_from n' rest
  | S _, EmptyString => EmptyString
  end.

(** [s.startsWith(p)]. *)
Fixpoint startsWith (p s : string) : bool :=
  match p with
  | EmptyString => true
  | String a p' =>
      match s with
      | EmptyString => false
      | String b s' => Ascii.eqb a b && startsWith p' s'
      end
  end.

(** [s.replace(pattern, '')] for a string [pattern]: the first occurrence
    is removed. *)
Fixpoint remove_first (pattern s : string) : string :=
  if startsWith pattern s then slice_from (String.length pattern) s
  else match s with
       | EmptyString => EmptyString
       | String c rest => String c (remove_first pattern rest)
       end.

(** [' '.repeat(n)]. *)
Fixpoint spaces (n : nat) : string :=
  match n with
  | O => EmptyString
  | S n' => String " " (spaces n')
  end.

(** The length of the white space at the head of [s], which is what
    [dedent] matches to measure an indentation. *)
Fixpoint leading_space (s : string) : nat :=
  match s with
  | EmptyString => O
  | String c rest => if is_space c then S (leading_space rest) else O
  end.

(** [s.split(/\r?\n/)]: the lines of [s], ended by LF or by CR LF. *)
Fixpoint split_lines (s : string) : list string :=
  match s with
  | EmptyString => [EmptyString]
  | String c rest =>
      if Ascii.eqb c LF then EmptyString :: split_lines rest
      else
        match rest with
        | String c' rest' =>
            if Ascii.eqb c CR && Ascii.eqb c' LF
            then EmptyString :: split_lines rest'
            else match split_lines rest with
                 | [] => [String c EmptyString]
                 | w :: ws => String c w :: ws
                 end
        | EmptyString => [String c EmptyString]
        end
  end.

(** [s.replace(/\r\n/g, '\n')]. *)
Fixpoint normalize_newlines (s : string) : string :=
  match s with
  | EmptyString => EmptyString
  | String c rest =>
      match rest with
      | String c' rest' =>
          if Ascii.eqb c CR && Ascii.eqb c' LF
          then String LF (normalize_newlines rest')
          else String c (normalize_newlines rest)
      | EmptyString => String c EmptyString
      end
  end.

End JsText.

Import JsText.

(** ** [utilities/strings.ts] *)

Module Strings.

(** The entity that [escapeHtml] puts for a character, or the character
    itself: [map[char] || char] on the five characters that the regular
    expression of [escapeHtml] matches, and the other characters unchanged. *)
Definition escape_char (c : ascii) : string :=
  if Ascii.eqb c "&" then "&amp;"
  else if Ascii.eqb c "<" then "&lt;"
  else if Ascii.eqb c ">" then "&gt;"
  else if Ascii.eqb c quote then "&quot;"
  else if Ascii.eqb c "'" then "&#039;"
  else String c EmptyString.

Fixpoint escapeHtml (text : string) : string :=
  match text with
  | EmptyString => EmptyString
  | String c rest => escape_char c ++ escapeHtml rest
  end.

Fixpoint leading_zeros (s : string) : nat :=
  match s with
  | String "0" rest => S (leading_zeros rest)
  | _ => O
  end.

(** A match of [/&(?:amp|lt|gt|quot|#(0+)?39);/] at an ampersand, given the
    text [s] after the ampersand: the replacement
    [htmlUnescapes[match] || "'"] and the number of characters of [s] that
    the match covers. *)
Definition entity_after_ampersand (s : string) : option (ascii * nat) :=
  if startsWith "amp;" s then Some ("&"%char, 4%nat)
  else if startsWith "lt;" s then Some ("<"%char, 3%nat)
  else if startsWith "gt;" s then Some (">"%char, 3%nat)
  else if startsWith "quot;" s then Some (quote, 5%nat)
  else
    match s with
    | String "#" digits =>
        let zeros := leading_zeros digits in
        if startsWith "39;" (slice_from zeros digits)
        then Some ("'"%char, (1 + zeros + 3)%nat)
        else None
    | _ => None
    end.

(** The scan of [str.replace(regex, ...)] with the global flag, from left to
    right; [skip] counts the characters still covered by the last match. *)
Fixpoint unescape_from (skip : nat) (str : string) : string :=
  match str with
  | EmptyString => EmptyString
  | String c rest =>
      match skip with
      | S skip' => unescape_from skip' rest
      | O =>
          if Ascii.eqb c "&" then
            match entity_after_ampersand rest with
            | Some (replacement, covered) =>
                String replacement (unescape_from covered rest)
            | None => String c (unescape_from 0 rest)
            end
          else String c (unescape_from 0 rest)
      end
  end.

Definition unescapeHtml (str : string) : string := unescape_from 0 str.

(** [capitalize(str)]:
    [str.charAt(0).toUpperCase() + str.slice(1).toLowerCase()]. *)
Definition capitalize (str : string) : string :=
  match str with
  | EmptyString => EmptyString
  | String c rest => String (toUpperCase_char c) (toLowerCase rest)
  end.

(** [line.trim() === '']. *)
Definition is_blank (line : string) : bool := String.eqb (trim line) EmptyString.

(** [while (lines.length > 0 && lines[0].trim() === '') lines.shift()]. *)
Fixpoint drop_blank_head (lines : list string) : list string :=
  match lines with
  | [] => []
  | l :: rest => if is_blank l then drop_blank_head rest else lines
  end.

(** The same loop from the other end, with [lines.pop()]. *)
Definition drop_blank_tail (lines : list string) : list string :=
  List.rev (drop_blank_head (List.rev lines)).

(** The loop that finds [minIndent]; [None] is [null]. *)
Fixpoint min_indent (lines : list string) (minIndent : option nat) : option nat :=
  match lines with
  | [] => minIndent
  | line :: rest =>
      if is_blank line then min_indent rest minIndent
      else
        let indent := leading_space line in
        match minIndent with
        | None => min_indent rest (Some indent)
        | Some m =>
            if (indent <? m)%nat then min_indent rest (Some indent)
            else min_indent rest minIndent
        end
  end.

Definition dedent (input : string) : string :=
  let lines := split LF (normalize_newlines input) in
  let lines := drop_blank_tail (drop_blank_head lines) in
  match lines with
  | [] => EmptyString
  | _ =>
      match min_indent lines None with
      | None | Some O => join (String LF EmptyString) lines
      | Some minIndent =>
          let prefix := spaces minIndent in
          join (String LF EmptyString)
               (map (fun l => if startsWith prefix l
                              then slice_from minIndent l else l)
                    lines)
      end
  end.

End Strings.

(** ** [components/base/base.ts] *)

Module Base.

(** The field [tagname], from the [tagName] of the element. *)
Definition tagname (tagName : string) : string := toLowerCase tagName.

(** The field [basename]. *)
Definition basename (tagName : string) : string :=
  Strings.capitalize (remove_first "tp-" (tagname tagName)).

(** The type of the event that [emit(name)] creates. *)
Definition event_type (tagName name : string) : string :=
  tagname tagName ++ "-" ++ name.

End Base.

(** ** [scripts/wordsFileToString.ts] *)

Module WordsFile.

(** [filter(Boolean)] on strings keeps those that are not empty. *)
Definition nonempty (s : string) : bool :=
  match s with
  | EmptyString => false
  | _ => true
  end.

Definition normalizeLinesToWords (content : string) : list string :=
  filter nonempty (map trim (split_lines content)).

(** What [wordsFileToStringFromPath] and [wordsFileToStringFromBlob] return
    for a file whose text is [data]. *)
Definition wordsFileToString (data : string) (separator : string) : string :=
  join separator (normalizeLinesToWords data).

End WordsFile.

(** ** [vite.config.ts] *)

Module ViteConfig.

(** [replaceAll(from, to)] for single characters. *)
Fixpoint replace_char (from to : ascii) (s : string) : string :=
  match s with
  | EmptyString => EmptyString
  | String c rest =>
      String (if Ascii.eqb c from then to else c) (replace_char from to rest)
  end.

(** [replace(/^(\.\.\/)+/g, '')]. *)
Fixpoint strip_parent_dirs (s : string) : string :=
  match s with
  | String a (String b (String c rest)) =>
      if Ascii.eqb a "." && Ascii.eqb b "." && Ascii.eqb c "/"
      then strip_parent_dirs rest
      else s
  | _ => s
  end.

(** [replace(/^\/+/g, '')]. *)
Fixpoint strip_slashes (s : string) : string :=
  match s with
  | String a rest => if Ascii.eqb a "/" then strip_slashes rest else s
  | EmptyString => s
  end.

(** [replace(/\0/g, '')]. *)
Fixpoint remove_char (c : ascii) (s : string) : string :=
  match s with
  | EmptyString => EmptyString
  | String a rest =>
      if Ascii.eqb a c then remove_char c rest else String a (remove_char c rest)
  end.

Definition sanitizeChunkName (name : string) : string :=
  remove_char NUL
    (replace_char ":" "_"
       (strip_slashes
          (strip_parent_dirs
             (replace_char "\" "/" name)))).

End ViteConfig.

(** ** Vocabulary of the specification *)

Module Spec.

(** An integer written in decimal, as in the range notation [{min}-{max}]. *)
Definition decimal (z : Z) : string := NilEmpty.string_of_int (Z.to_int z).

(** A character that is a decimal digit. *)
Definition is_decimal_digit (c : ascii) : bool :=
  match digit_of 10 c with
  | Some _ => true
  | None => false
  end.

(** The range [{min}-{max}] as a size property. *)
Definition range_spec (min max : Z) : size :=
  Str (decimal min ++ "-" ++ decimal max).

(** A size is a range when it is a string with a [-] separator, and a
    literal otherwise. *)
Definition is_range (r : size) : bool :=
  match r with
  | Num _ => false
  | Str s => includes "-" s
  end.

(** The bounds that [getNumberWithinRange] reads off a range string. *)
Definition range_min (s : string) : number :=
  or_zero (Number_opt (nth_error (split "-" s) 0)).
Definition range_max (s : string) : number :=
  or_zero (Number_opt (nth_error (split "-" s) 1)).

(** The value of a literal size. *)
Definition literal_value (r : size) : number :=
  match r with
  | Num n => or_zero n
  | Str s => or_zero (Number s)
  end.

(** A size that resolves to a finite number whatever is drawn: no bound is
    infinite. *)
Definition finite_size (r : size) : bool :=
  match r with
  | Num n => is_finite (or_zero n)
  | Str s =>
      if includes "-" s then is_finite (range_min s) && is_finite (range_max s)
      else is_finite (or_zero (Number s))
  end.

Section Stream.

Variable sin : number -> number.
Variable random : nat -> number.

(** What the next call of the generator returns, and the state it leaves. *)
Definition next_value (g : NumberGenerator) : number :=
  match g with
  | Seeded currentSeed => fst (seeded_step sin currentSeed)
  | Unseeded calls => random calls
  end.

Definition next_state (g : NumberGenerator) : NumberGenerator :=
  match g with
  | Seeded currentSeed => Seeded (snd (seeded_step sin currentSeed))
  | Unseeded calls => Unseeded (S calls)
  end.

(** The state after [n] calls. *)
Fixpoint advance (n : nat) (g : NumberGenerator) : NumberGenerator :=
  match n with
  | O => g
  | S n' => advance n' (next_state g)
  end.

(** The value of call number [n], counting from 0. *)
Definition nth_draw (n : nat) (g : NumberGenerator) : number :=
  next_value (advance n g).

(** The first [n] values of the stream. *)
Definition draws (n : nat) (g : NumberGenerator) : list number :=
  map (fun k => nth_draw k g) (seq 0 n).

(** A stream that keeps the contract of [next()]: every value lies in
    [[0, 1)]. *)
Definition unit_stream (g : NumberGenerator) : Prop :=
  forall n, in_unit (nth_draw n g).

End Stream.

(** Two methods agree on seeded generators: started from the same captured
    seed they return the same result and leave the same state, again a
    seeded one. *)
Definition seeded_agree {A : Type} (m1 m2 : Gen A) : Prop :=
  forall s,
    m1 (Seeded s) = m2 (Seeded s)
    /\ forall a g, m1 (Seeded s) = Some (a, g) -> exists s', g = Seeded s'.

(** The dictionary index that [generateWords] computes from a draw. *)
Definition word_index (DICTIONARY : list string) (value : number) : number :=
  clampRandom value zero (sub (of_nat (List.length DICTIONARY)) one).

(** The comma decision that [generateSentences] computes from a draw. *)
Definition comma_drawn (value : number) : bool :=
  strict_eq (clampRandom value zero commaFrequency) zero.

(** The separator put before a word that received a comma draw. *)
Definition separator (comma : bool) : string :=
  if comma then ",  " else " ".

Section Shapes.

Variable sin : number -> number.
Variable random : nat -> number.
Variable DICTIONARY : list string.

(** The words at the dictionary indices computed from the next [n] values
    of [g], in order. *)
Definition drawn_words (n : nat) (g : NumberGenerator) : list (option string) :=
  map (fun k => DICTIONARY_at DICTIONARY
                  (word_index DICTIONARY (nth_draw sin random k g)))
      (seq 0 n).

(** [len] resolves, from [g], to a count of [n] words; these are the words
    [ws], and the generator is left in [g']. *)
Definition words_of_size (len : size) (g : NumberGenerator)
    (ws : list string) (g' : NumberGenerator) : Prop :=
  exists numWords g1 n,
    getNumberWithinRange sin random len g = Some (numWords, g1)
    /\ trip_count numWords = Some n
    /\ drawn_words n g1 = map Some ws
    /\ Forall (fun w => In w DICTIONARY) ws
    /\ g' = advance sin n g1.

(** The title rule for the size [len]: resolve [len] words, draw them,
    capitalize the first letter of every word, join with single spaces. *)
Definition title_rule (len : size) (g : NumberGenerator)
    (text : string) (g' : NumberGenerator) : Prop :=
  exists ws, words_of_size len g ws g'
             /\ text = join " " (map capitalize ws).

(** A word run of size [len], as in a list item: resolve [len] words, draw
    them, join with single spaces, capitalize the first letter only. *)
Definition word_run (len : size) (g : NumberGenerator)
    (text : string) (g' : NumberGenerator) : Prop :=
  exists ws, words_of_size len g ws g'
             /\ text = capitalize (join " " ws).

(** [n] term/description pairs generated one after the other from [g]:
    for each pair the description is a word run of [wordsPerSentence] words
    and the term follows the title rule for the outer [length]. *)
Inductive definition_items (this : TpLorem)
  : nat -> NumberGenerator -> list (string * string) -> NumberGenerator -> Prop :=
| items_done (g : NumberGenerator) : definition_items this 0 g [] g
| items_next (n : nat) (g g1 g2 g3 : NumberGenerator)
    (term description : string) (pairs : list (string * string)) :
    word_run (wordsPerSentence this) g description g1 ->
    title_rule (length this) g1 term g2 ->
    definition_items this n g2 pairs g3 ->
    definition_items this (S n) g ((term, description) :: pairs) g3.

(** A sentence of exactly five dictionary words: the first capitalized,
    the second possibly preceded by a comma, a period at the end. *)
Definition five_word_sentence (s : string) : Prop :=
  exists (w1 w2 w3 w4 w5 : string) (comma : bool),
    Forall (fun w => In w DICTIONARY) [w1; w2; w3; w4; w5]
    /\ s = capitalize w1 ++ separator comma ++ w2 ++ " " ++ w3 ++ " " ++ w4
            ++ " " ++ w5 ++ ".".

End Shapes.

(** A term/description pair in its markers. *)
Definition definition_pair (p : string * string) : string :=
  "<dt>" ++ fst p ++ "</dt><dd>" ++ snd p ++ "</dd>".

(** The concatenation of a list of strings. *)
Definition concat_strings (l : list string) : string :=
  fold_right String.append EmptyString l.

(** A character that is no letter. *)
Definition not_a_letter (c : ascii) : Prop :=
  (nat_of_ascii c < 65)%nat
  \/ (90 < nat_of_ascii c < 97)%nat
  \/ (122 < nat_of_ascii c)%nat.

(** How often [c] occurs in [s]. *)
Fixpoint count_char (c : ascii) (s : string) : nat :=
  match s with
  | EmptyString => O
  | String a rest => (if Ascii.eqb a c then 1 else 0) + count_char c rest
  end.

(** How often [needle] occurs in [s] (at any position). *)
Fixpoint count_substring (needle : string) (s : string) : nat :=
  match s with
  | EmptyString => O
  | String _ rest =>
      (if String.prefix needle s then 1 else 0) + count_substring needle rest
  end.

End Spec.

Import Spec.

(** ** Vocabulary for the other functions *)

Module Props.

(** The order of the numbers; [NaN] is not comparable. *)
Definition le_num (x y : number) : Prop :=
  match x, y with
  | NaN, _ | _, NaN => False
  | NegInf, _ => True
  | _, PosInf => True
  | Fin p, Fin q => (p <= q)%Q
  | _, _ => False
  end.

(** [n] list items generated one after the other from [g]: each is a word
    run of [wordsPerSentence] words. *)
Inductive list_items (sin : number -> number) (random : nat -> number)
    (DICTIONARY : list string) (this : TpLorem)
  : nat -> NumberGenerator -> list string -> NumberGenerator -> Prop :=
| list_items_done (g : NumberGenerator) :
    list_items sin random DICTIONARY this 0 g [] g
| list_items_next (n : nat) (g g1 g2 : NumberGenerator)
    (text : string) (items : list string) :
    word_run sin random DICTIONARY (wordsPerSentence this) g text g1 ->
    list_items sin random DICTIONARY this n g1 items g2 ->
    list_items sin random DICTIONARY this (S n) g (text :: items) g2.

(** [n] runs of [generateSentences] one after the other from [g]. *)
Inductive paragraph_texts (sin : number -> number) (random : nat -> number)
    (DICTIONARY : list string) (this : TpLorem)
  : nat -> NumberGenerator -> list string -> NumberGenerator -> Prop :=
| paragraph_texts_done (g : NumberGenerator) :
    paragraph_texts sin random DICTIONARY this 0 g [] g
| paragraph_texts_next (n : nat) (g g1 g2 : NumberGenerator)
    (sentences : string) (texts : list string) :
    generateSentences sin random DICTIONARY this g = Some (sentences, g1) ->
    paragraph_texts sin random DICTIONARY this n g1 texts g2 ->
    paragraph_texts sin random DICTIONARY this (S n) g (sentences :: texts) g2.

(** A list item in its markers. *)
Definition list_item (text : string) : string := "<li>" ++ text ++ "</li>".

(** A paragraph in its markers. *)
Definition paragraph (text : string) : string := "<p>" ++ text ++ "</p>".

(** [n] zeros. *)
Fixpoint zeros (n : nat) : string :=
  match n with
  | O => EmptyString
  | S n' => String "0" (zeros n')
  end.

(** A string of 7-bit characters. *)
Definition is_ascii_char (c : ascii) : bool := (nat_of_ascii c <? 128)%nat.

(** [Number.MAX_SAFE_INTEGER].  Every integer up to it is a number of the
    platform, and is read exactly off its decimal notation; the sums and
    differences of the sampler that stay below it are computed exactly. *)
Definition MAX_SAFE_INTEGER : Z := 2 ^ 53 - 1.

(** A finite number of magnitude at most [MAX_SAFE_INTEGER]. *)
Definition safe_number (x : number) : Prop :=
  match x with
  | Fin q =>
      (inject_Z (- MAX_SAFE_INTEGER) <= q)%Q /\ (q <= inject_Z MAX_SAFE_INTEGER)%Q
  | _ => False
  end.

(** An integer of at most 48 bits.  A range between two of them has a width
    of at most 49 bits, so the platform's 53-bit product of a draw of
    [[0, 1)] with the width is off by less than 1/16. *)
Definition small_integer (z : Z) : Prop := (- 2 ^ 48 <= z <= 2 ^ 48)%Z.

(** One of the five characters that [escapeHtml] replaces. *)
Definition is_markup_char (c : ascii) : bool :=
  Ascii.eqb c "&" || Ascii.eqb c "<" || Ascii.eqb c ">"
  || Ascii.eqb c quote || Ascii.eqb c "'".

(** A word as a words file holds one per line: not empty, no white space at
    either end, no line feed inside. *)
Definition clean_word (w : string) : Prop :=
  w <> EmptyString /\ trim w = w /\ includes LF w = false.

(** The first character of a string, if any. *)
Definition first_char (s : string) : option ascii :=
  match s with
  | EmptyString => None
  | String c _ => Some c
  end.

End Props.

Import Props.

(** ** Sample platform functions and word lists *)

Module Sample.

Definition sin_id (x : number) : number := x.
Definition sin_clamped (x : number) : number :=
  MathsUtil.clamp x (of_Z (-1)) one.
Definition random_zero (k : nat) : number := zero.
Definition random_sevenths (k : nat) : number := Fin (Z.of_nat (k mod 7) # 7).
Definition parseFloat_nan (s : string) : number := NaN.
Definition words : list string := ["lorem"; "ipsum"; "dolor"; "sit"; "amet"].

End Sample.

(** ** Arithmetic of the number model *)

Section NumberFacts.

Lemma Qred_inject_Z (z : Z) : Qred (inject_Z z) = inject_Z z.
Proof.
  apply Qcanon.Qred_identity. simpl. apply Z.gcd_1_r.
Qed.

Lemma Qred_is_inject_Z (q : Q) (z : Z) :
  q == inject_Z z -> Qred q = inject_Z z.
Proof.
  intros H. rewrite <- (Qred_inject_Z z). now apply Qred_complete.
Qed.

Lemma add_of_Z (a b : Z) : add (of_Z a) (of_Z b) = of_Z (a + b).
Proof.
  unfold add, of_Z. f_equal. apply Qred_is_inject_Z.
  now rewrite inject_Z_plus.
Qed.

Lemma sub_of_Z (a b : Z) : sub (of_Z a) (of_Z b) = of_Z (a - b).
Proof.
  unfold sub, neg, add, of_Z. f_equal. apply Qred_is_inject_Z.
  unfold Z.sub. now rewrite inject_Z_plus, inject_Z_opp.
Qed.

Lemma floor_mul_of_Z (v : Q) (k : Z) :
  floor (mul (Fin v) (of_Z k)) = of_Z (Qfloor (v * inject_Z k)).
Proof.
  unfold floor, mul, of_Z. do 2 f_equal.
  apply Qfloor_comp. apply Qred_correct.
Qed.

(** On integer bounds [clampRandom] is
    [floor (v * (max - min + 1)) + min], computed on integers. *)
Lemma clampRandom_of_Z (v : Q) (a b : Z) :
  clampRandom (Fin v) (of_Z a) (of_Z b)
  = of_Z (Qfloor (v * inject_Z (b - a + 1)) + a).
Proof.
  unfold clampRandom, one.
  now rewrite sub_of_Z, add_of_Z, floor_mul_of_Z, add_of_Z.
Qed.

Lemma Qfloor_unit_scaled (v : Q) (k : Z) :
  0 <= v -> v < 1 -> (0 < k)%Z ->
  (0 <= Qfloor (v * inject_Z k) < k)%Z.
Proof.
  intros H0 H1 Hk.
  assert (Hk' : inject_Z 0 < inject_Z k) by (now rewrite <- Zlt_Qlt).
  split.
  - change 0%Z with (Qfloor 0). apply Qfloor_resp_le.
    apply Qmult_le_0_compat; [exact H0 | now apply Qlt_le_weak].
  - rewrite Zlt_Qlt.
    apply Qle_lt_trans with (v * inject_Z k); [apply Qfloor_le|].
    rewrite <- (Qmult_1_l (inject_Z k)) at 2.
    now apply Qmult_lt_compat_r.
Qed.

(** [trip_count] counts the indices [i = 0, 1, ...] that pass the loop test
    [i < bound]. *)
Lemma trip_count_test (bound : number) (n : nat) :
  trip_count bound = Some n ->
  forall i : nat, lt (of_nat i) bound = true <-> (i < n)%nat.
Proof.
  destruct bound as [| | |q]; simpl; try discriminate.
  - intros [= <-] i. split; [discriminate | lia].
  - intros [= <-] i. split; [discriminate | lia].
  - intros [= <-] i.
    pose proof (Qle_ceiling q) as Hle. pose proof (Qceiling_lt q) as Hlt.
    destruct (Qcompare_spec (inject_Z (Z.of_nat i)) q) as [E|L|G].
    + split; [discriminate|]. intros Hi.
      assert (Z.of_nat i < Qceiling q)%Z as H by lia.
      assert (inject_Z (Z.of_nat i) <= inject_Z (Qceiling q - 1)) as H'
        by (rewrite <- Zle_Qle; lia).
      rewrite E in H'. exfalso. apply (Qlt_irrefl q).
      now apply Qle_lt_trans with (inject_Z (Qceiling q - 1)).
    + split; [|reflexivity]. intros _.
      assert (inject_Z (Z.of_nat i) < inject_Z (Qceiling q)) as H
        by (now apply Qlt_le_trans with q).
      rewrite <- Zlt_Qlt in H. lia.
    + split; [discriminate|]. intros Hi.
      assert (Z.of_nat i < Qceiling q)%Z as H by lia.
      assert (inject_Z (Z.of_nat i) <= inject_Z (Qceiling q - 1)) as H'
        by (rewrite <- Zle_Qle; lia).
      exfalso. apply (Qlt_irrefl q).
      apply Qlt_trans with (inject_Z (Z.of_nat i)); [exact G|].
      now apply Qle_lt_trans with (inject_Z (Qceiling q - 1)).
Qed.

Lemma trip_count_of_nat (n : nat) : trip_count (of_nat n) = Some n.
Proof.
  unfold trip_count, of_nat, of_Z. now rewrite Qceiling_Z, Nat2Z.id.
Qed.

(** With [bound = Infinity], and only then, the loop test never fails. *)
Lemma trip_count_endless (bound : number) :
  trip_count bound = None <-> forall i : nat, lt (of_nat i) bound = true.
Proof.
  split.
  - destruct bound; simpl; try discriminate. reflexivity.
  - intros H. destruct bound as [| | |q] eqn:E; try reflexivity.
    + specialize (H 0%nat). discriminate.
    + specialize (H 0%nat). discriminate.
    + exfalso. rewrite <- E in H.
      pose proof (proj1 (trip_count_test bound _ ltac:(rewrite E; reflexivity)
                           (Z.to_nat (Qceiling q))) (H _)).
      lia.
Qed.

Lemma or_zero_of_Z (z : Z) : or_zero (of_Z z) = of_Z z.
Proof.
  unfold or_zero, truthy, of_Z.
  destruct (Qeq_bool (inject_Z z) 0) eqn:E; simpl; [|reflexivity].
  apply Qeq_bool_eq in E. unfold Qeq in E. simpl in E.
  assert (z = 0%Z) by lia. now subst.
Qed.

(** The sampler stays within its bounds, both included. *)
Lemma clampRandom_within (v : number) (a b : Z) :
  in_unit v -> (a <= b)%Z ->
  exists n : Z, clampRandom v (of_Z a) (of_Z b) = of_Z n /\ (a <= n <= b)%Z.
Proof.
  destruct v as [| | |q]; simpl; try contradiction.
  intros [H0 H1] Hab.
  exists (Qfloor (q * inject_Z (b - a + 1)) + a)%Z. split.
  - apply clampRandom_of_Z.
  - pose proof (Qfloor_unit_scaled q (b - a + 1) H0 H1 ltac:(lia)). lia.
Qed.

(** A zero draw gives the lower bound. *)
Lemma clampRandom_zero_draw (m M : Q) :
  Qred m = m -> clampRandom zero (Fin m) (Fin M) = Fin m.
Proof.
  intros Hm. unfold clampRandom, zero, one, of_Z, sub, neg, add, mul, floor, of_Z.
  assert (E : Qfloor (Qred (inject_Z 0 * Qred (Qred (M + - m) + inject_Z 1))) = 0%Z).
  { rewrite (Qfloor_comp _ 0); [reflexivity|].
    rewrite Qred_correct. apply Qmult_0_l. }
  rewrite E. f_equal. rewrite <- Hm at 2. apply Qred_complete.
  apply Qplus_0_l.
Qed.

End NumberFacts.

(** ** What one call of each method does to the generator *)

Section GeneratorFacts.

Variable sin : number -> number.
Variable random : nat -> number.
Variable DICTIONARY : list string.

Local Abbreviation next_value := (next_value sin random).
Local Abbreviation next_state := (next_state sin).
Local Abbreviation advance := (advance sin).
Local Abbreviation nth_draw := (nth_draw sin random).
Local Abbreviation generateNumber := (generateNumber sin random).
Local Abbreviation getNumberWithinRange := (getNumberWithinRange sin random).
Local Abbreviation generateWords := (generateWords sin random DICTIONARY).

Lemma generateNumber_eq (g : NumberGenerator) :
  generateNumber g = Some (next_value g, next_state g).
Proof.
  destruct g; reflexivity.
Qed.

Lemma advance_S (n : nat) (g : NumberGenerator) :
  advance (S n) g = next_state (advance n g).
Proof.
  revert g. induction n as [|n IH]; intros g; [reflexivity|].
  simpl in *. now rewrite IH.
Qed.

Lemma advance_add (n m : nat) (g : NumberGenerator) :
  advance (n + m) g = advance m (advance n g).
Proof.
  revert g. induction n as [|n IH]; intros g; [reflexivity|].
  simpl. apply IH.
Qed.

Lemma unit_stream_advance (n : nat) (g : NumberGenerator) :
  unit_stream sin random g -> unit_stream sin random (advance n g).
Proof.
  intros H k. unfold Spec.nth_draw. rewrite <- advance_add. apply H.
Qed.

Lemma unit_stream_next (g : NumberGenerator) :
  unit_stream sin random g ->
  in_unit (next_value g) /\ unit_stream sin random (next_state g).
Proof.
  intros H. split; [exact (H 0%nat)|]. exact (unit_stream_advance 1 g H).
Qed.

Lemma getNumberWithinRange_literal (r : size) (g : NumberGenerator) :
  is_range r = false ->
  getNumberWithinRange r g = Some (literal_value r, g).
Proof.
  destruct r as [n|s]; simpl; intros H; [reflexivity|].
  now rewrite H.
Qed.

Lemma getNumberWithinRange_range (s : string) (g : NumberGenerator) :
  includes "-" s = true ->
  getNumberWithinRange (Str s) g
  = Some (clampRandom (next_value g) (range_min s) (range_max s), next_state g).
Proof.
  intros H. unfold Lorem.getNumberWithinRange. rewrite H. simpl.
  unfold bind. now rewrite generateNumber_eq.
Qed.

(** The words drawn by [generateWords] are those at the indices computed
    from the next draws, in order. *)
Lemma generateWords_iterate (n : nat) (acc : list (option string))
    (g : NumberGenerator) :
  iterate n
    (fun words =>
       value <- generateNumber ;;
       ret (words ++ [DICTIONARY_at DICTIONARY (word_index DICTIONARY value)])%list)
    acc g
  = Some ((acc ++ map (fun k => DICTIONARY_at DICTIONARY
                                  (word_index DICTIONARY (nth_draw k g)))
                      (seq 0 n))%list,
          advance n g).
Proof.
  revert acc g. induction n as [|n IH]; intros acc g.
  - simpl. now rewrite List.app_nil_r.
  - cbn [iterate]. unfold bind at 1. unfold bind at 1.
    rewrite generateNumber_eq. unfold ret at 1.
    rewrite IH. cbn [Spec.advance seq map].
    rewrite <- List.app_assoc. cbn [List.app].
    rewrite <- seq_shift, map_map. reflexivity.
Qed.

Lemma generateWords_eq (length : number) (n : nat) (g : NumberGenerator) :
  trip_count length = Some n ->
  generateWords length g
  = Some (map (fun k => DICTIONARY_at DICTIONARY
                          (word_index DICTIONARY (nth_draw k g)))
              (seq 0 n),
          advance n g).
Proof.
  intros H. unfold Lorem.generateWords, for_upto. rewrite H.
  apply (generateWords_iterate n [] g).
Qed.

Lemma generateWords_diverges (g : NumberGenerator) :
  generateWords PosInf g = None.
Proof.
  reflexivity.
Qed.

End GeneratorFacts.

(** ** Parsing decimal numerals *)

Section DecimalFacts.

Lemma digit_code (c : ascii) :
  is_decimal_digit c = true -> (48 <= N_of_ascii c <= 57)%N.
Proof.
  unfold is_decimal_digit, digit_of.
  destruct ((48 <=? N_of_ascii c)%N && (N_of_ascii c <=? 57)%N) eqn:E.
  - intros _. apply andb_true_iff in E. destruct E as [E1 E2].
    apply N.leb_le in E1, E2. lia.
  - destruct ((97 <=? N_of_ascii c)%N && (N_of_ascii c <=? 102)%N) eqn:E1.
    + apply andb_true_iff in E1. destruct E1 as [E1 E2].
      apply N.leb_le in E1, E2.
      destruct (N_of_ascii c - 87 <? 10)%N eqn:E3; [|discriminate].
      apply N.ltb_lt in E3. lia.
    + destruct ((65 <=? N_of_ascii c)%N && (N_of_ascii c <=? 70)%N) eqn:E2;
        [|discriminate].
      apply andb_true_iff in E2. destruct E2 as [E2 E3].
      apply N.leb_le in E2, E3.
      destruct (N_of_ascii c - 55 <? 10)%N eqn:E4; [|discriminate].
      apply N.ltb_lt in E4. lia.
Qed.

Lemma digit_differs (c other : ascii) :
  is_decimal_digit c = true ->
  (N_of_ascii other <? 48)%N || (57 <? N_of_ascii other)%N = true ->
  Ascii.eqb c other = false.
Proof.
  intros Hc Ho. apply Ascii.eqb_neq. intros ->.
  apply digit_code in Hc. apply orb_true_iff in Ho.
  destruct Ho as [Ho|Ho]; apply N.ltb_lt in Ho; lia.
Qed.

Lemma digit_not_space (c : ascii) :
  is_decimal_digit c = true -> is_space c = false.
Proof.
  intros Hc. apply digit_code in Hc. unfold is_space.
  assert (E : nat_of_ascii c = N.to_nat (N_of_ascii c)) by reflexivity.
  rewrite E.
  apply orb_false_iff. split.
  - apply andb_false_iff. right. apply Nat.leb_gt. lia.
  - apply Nat.eqb_neq. lia.
Qed.

Lemma trimEnd_digits (s : string) :
  all_chars is_decimal_digit s = true -> trimEnd s = s.
Proof.
  induction s as [|c s IH]; [reflexivity|]. simpl.
  intros H. apply andb_true_iff in H. destruct H as [Hc Hs].
  rewrite (IH Hs), (digit_not_space c Hc). now destruct s.
Qed.

Lemma trim_digits (s : string) :
  all_chars is_decimal_digit s = true -> trim s = s.
Proof.
  intros H. unfold trim.
  assert (E : trimStart s = s).
  { destruct s as [|c s]; [reflexivity|]. simpl in *.
    apply andb_true_iff in H. destruct H as [Hc _].
    now rewrite (digit_not_space c Hc). }
  rewrite E. now apply trimEnd_digits.
Qed.

Lemma includes_digits (c : ascii) (s : string) :
  (N_of_ascii c <? 48)%N || (57 <? N_of_ascii c)%N = true ->
  all_chars is_decimal_digit s = true -> includes c s = false.
Proof.
  intros Hc. induction s as [|a s IH]; [reflexivity|]. simpl.
  intros H. apply andb_true_iff in H. destruct H as [Ha Hs].
  now rewrite (digit_differs a c Ha Hc), (IH Hs).
Qed.

(** A run of decimal digits is read to its end. *)
Lemma span_digits_all (s : string) (acc : N) (cnt : nat) :
  all_chars is_decimal_digit s = true ->
  exists v, span_digits 10 acc cnt s = (v, (cnt + String.length s)%nat, EmptyString).
Proof.
  revert acc cnt. induction s as [|c s IH]; intros acc cnt H.
  - exists acc. simpl. now rewrite Nat.add_0_r.
  - simpl in H. apply andb_true_iff in H. destruct H as [Hc Hs].
    unfold is_decimal_digit in Hc. simpl.
    destruct (digit_of 10 c) as [d|]; [|discriminate].
    destruct (IH (acc * 10 + d)%N (S cnt) Hs) as [v Hv].
    exists v. rewrite Hv. f_equal. f_equal. lia.
Qed.

Lemma decimal_value_integer (v : N) :
  decimal_value v 0 0 0 = inject_Z (Z.of_N v).
Proof.
  unfold decimal_value. apply Qred_is_inject_Z. simpl.
  unfold Qeq, Qmult, Qplus, Qdiv, Qinv. simpl. lia.
Qed.

(** [Number] reads a string of decimal digits as their value. *)
Lemma Number_digits (s : string) :
  all_chars is_decimal_digit s = true -> s <> EmptyString ->
  Number s = of_Z (Z.of_N (fst (fst (span_digits 10 0 0 s)))).
Proof.
  intros H Hne. unfold Number. rewrite (trim_digits s H).
  destruct s as [|c s]; [contradiction|].
  destruct (span_digits_all (String c s) 0 0 H) as [v Hv].
  assert (Hc : is_decimal_digit c = true).
  { simpl in H. now apply andb_true_iff in H. }
  unfold decimal_literal.
  rewrite (digit_differs c "+" Hc eq_refl), (digit_differs c "-" Hc eq_refl).
  unfold unsigned_literal.
  assert (E : String.eqb (String c s) "Infinity" = false).
  { simpl. now rewrite (digit_differs c "I" Hc eq_refl). }
  rewrite E. unfold unsigned_decimal. rewrite Hv. cbn [fst].
  cbn [String.length Nat.add exponent_part option_map].
  now rewrite decimal_value_integer.
Qed.

(** The digits that [Decimal] prints are decimal digits, and reading them
    back from the left gives the little-endian value of the reversed
    numeral. *)
Lemma string_of_uint_digits (d : uint) :
  all_chars is_decimal_digit (NilEmpty.string_of_uint d) = true.
Proof.
  induction d; simpl; auto.
Qed.

Lemma span_digits_uint (d a : uint) (cnt : nat) :
  fst (fst (span_digits 10 (Unsigned.of_lu a) cnt (NilEmpty.string_of_uint d)))
  = Unsigned.of_lu (revapp d a).
Proof.
  revert a cnt.
  induction d; intros a cnt; [reflexivity|..];
    cbn [NilEmpty.string_of_uint span_digits revapp];
    (match goal with
     | |- context [digit_of 10 ?c] =>
         let r := eval vm_compute in (digit_of 10 c) in
         change (digit_of 10 c) with r
     end);
    cbv iota;
    (match goal with
     | |- _ = Unsigned.of_lu (revapp _ ?a') => rewrite <- (IHd a' (S cnt))
     end);
    do 3 f_equal; cbn [Unsigned.of_lu]; lia.
Qed.

Lemma string_of_uint_nonempty (d : uint) :
  d <> Nil -> NilEmpty.string_of_uint d <> EmptyString.
Proof.
  destruct d; simpl; congruence.
Qed.

Lemma decimal_nonneg (n : N) :
  decimal (Z.of_N n) = NilEmpty.string_of_uint (N.to_uint n).
Proof.
  destruct n; reflexivity.
Qed.

Lemma N_to_uint_nonnil (n : N) : N.to_uint n <> Nil.
Proof.
  destruct n; simpl; [discriminate|]. apply Unsigned.to_uint_nonnil.
Qed.

(** Reading back a natural number written in decimal. *)
Lemma Number_decimal (n : N) :
  Number (decimal (Z.of_N n)) = of_Z (Z.of_N n).
Proof.
  rewrite decimal_nonneg.
  rewrite Number_digits.
  - change 0%N with (Unsigned.of_lu Nil) at 1.
    rewrite span_digits_uint.
    change (revapp (N.to_uint n) Nil) with (rev (N.to_uint n)).
    rewrite <- Unsigned.of_uint_alt.
    change (Pos.of_uint (N.to_uint n)) with (N.of_uint (N.to_uint n)).
    now rewrite DecimalN.Unsigned.of_to.
  - apply string_of_uint_digits.
  - apply string_of_uint_nonempty, N_to_uint_nonnil.
Qed.

Lemma decimal_digits (n : N) :
  all_chars is_decimal_digit (decimal (Z.of_N n)) = true.
Proof.
  rewrite decimal_nonneg. apply string_of_uint_digits.
Qed.

Lemma split_at_separator (c : ascii) (s1 s2 : string) :
  includes c s1 = false -> includes c s2 = false ->
  split c (s1 ++ String c s2) = [s1; s2].
Proof.
  intros H1 H2.
  assert (E2 : split c s2 = [s2]).
  { clear H1. induction s2 as [|a s IH]; [reflexivity|].
    simpl in *. apply orb_false_iff in H2. destruct H2 as [Ha Hs].
    now rewrite Ha, (IH Hs). }
  induction s1 as [|a s IH]; simpl in *.
  - now rewrite Ascii.eqb_refl, E2.
  - apply orb_false_iff in H1. destruct H1 as [Ha Hs].
    now rewrite Ha, (IH Hs).
Qed.

Lemma includes_app_separator (c : ascii) (s1 s2 : string) :
  includes c (s1 ++ String c s2) = true.
Proof.
  induction s1 as [|a s IH]; simpl.
  - now rewrite Ascii.eqb_refl.
  - rewrite IH. apply orb_true_r.
Qed.

(** The bounds read off [{min}-{max}] for natural numbers. *)
Lemma range_spec_bounds (min max : N) :
  exists s, range_spec (Z.of_N min) (Z.of_N max) = Str s
            /\ includes "-" s = true
            /\ range_min s = of_Z (Z.of_N min)
            /\ range_max s = of_Z (Z.of_N max).
Proof.
  exists (decimal (Z.of_N min) ++ "-" ++ decimal (Z.of_N max)).
  split; [reflexivity|]. split; [apply includes_app_separator|].
  unfold range_min, range_max.
  change ("-" ++ decimal (Z.of_N max)) with (String "-" (decimal (Z.of_N max))).
  rewrite (split_at_separator "-" (decimal (Z.of_N min)) (decimal (Z.of_N max))).
  2,3: apply includes_digits; [reflexivity | apply decimal_digits].
  cbn [nth_error Number_opt]. rewrite !Number_decimal.
  now rewrite !or_zero_of_Z.
Qed.

End DecimalFacts.

(** ** Resolving sizes *)

Section Resolution.

Variable sin : number -> number.
Variable random : nat -> number.

Local Abbreviation next_value := (next_value sin random).
Local Abbreviation next_state := (next_state sin).
Local Abbreviation getNumberWithinRange := (getNumberWithinRange sin random).

(** A range of natural numbers resolves within its bounds on a draw of
    [[0, 1)], and consumes that draw. *)
Lemma resolve_natural_range (min max : Z) (g : NumberGenerator) :
  (0 <= min)%Z -> (min <= max)%Z -> in_unit (next_value g) ->
  exists n : Z,
    getNumberWithinRange (range_spec min max) g = Some (of_Z n, next_state g)
    /\ (min <= n <= max)%Z.
Proof.
  intros Hmin Hle Hunit.
  destruct (range_spec_bounds (Z.to_N min) (Z.to_N max))
    as (s & Hs & Hinc & Hlo & Hhi).
  rewrite !Z2N.id in * by lia.
  rewrite Hs, (getNumberWithinRange_range sin random s g Hinc), Hlo, Hhi.
  destruct (clampRandom_within (next_value g) min max Hunit Hle) as (n & Hn & Hb).
  exists n. now rewrite Hn.
Qed.

(** C3 (as amended).  For all integers [0 <= min <= max] up to
    [Number.MAX_SAFE_INTEGER] and every generator whose next value lies in
    [[0, 1)], resolving the range [{min}-{max}] returns an integer [n] with
    [min <= n <= max], both ends included, and consumes exactly that one
    value.  The bound keeps the statement to the ranges whose bounds the
    platform reads exactly: above it [Number] rounds (the range
    [9007199254740993-9007199254740993] resolves to 9007199254740992), which
    the exact numbers of this development do not do. *)
Theorem range_resolution_within_bounds (min max : Z) (g : NumberGenerator) :
  (0 <= min)%Z -> (min <= max)%Z -> (max <= MAX_SAFE_INTEGER)%Z ->
  in_unit (next_value g) ->
  exists n : Z,
    getNumberWithinRange (range_spec min max) g = Some (of_Z n, next_state g)
    /\ (min <= n <= max)%Z.
Proof.
  intros Hmin Hle _. exact (resolve_natural_range min max g Hmin Hle).
Qed.

(** C5 (as amended).  Resolving a bare number returns it unchanged when it
    is truthy, the two infinities included; [NaN] and [0] resolve to [0].  The
    generator is left as it was. *)
Theorem bare_number_resolution (n : number) (g : NumberGenerator) :
  getNumberWithinRange (Num n) g
  = Some (match n with
          | NaN => zero
          | Fin q => if Qeq_bool q 0 then zero else Fin q
          | PosInf => PosInf
          | NegInf => NegInf
          end, g)
  /\ getNumberWithinRange (Num (of_Z 7)) g = Some (of_Z 7, g).
Proof.
  split; [|reflexivity].
  destruct n as [| | |q]; try reflexivity.
  simpl. unfold ret, or_zero, truthy. now destruct (Qeq_bool q 0).
Qed.

(** C6.  Resolving a literal size, a bare number or a string without a [-],
    returns and leaves the generator in the state it was in: no value is
    consumed, so whatever runs next makes the draws it would have made
    without the call. *)
Theorem literal_resolution_keeps_generator (r : size) (g : NumberGenerator) :
  is_range r = false ->
  getNumberWithinRange r g = Some (literal_value r, g)
  /\ forall (A : Type) (next : Gen A),
       bind (getNumberWithinRange r) (fun _ => next) g = next g.
Proof.
  intros H.
  pose proof (getNumberWithinRange_literal sin random r g H) as E.
  split; [exact E|]. intros A next. unfold bind. now rewrite E.
Qed.

End Resolution.

Lemma in_unit_sevenths (k : nat) : in_unit (Sample.random_sevenths k).
Proof.
  pose proof (Nat.mod_upper_bound k 7 ltac:(discriminate)) as H.
  unfold Sample.random_sevenths, in_unit, Qle, Qlt.
  generalize dependent (k mod 7)%nat. intros m H. cbn [Qnum Qden]. lia.
Qed.

Lemma range_resolution_within_bounds_witness :
  exists n : Z,
    getNumberWithinRange Sample.sin_id Sample.random_sevenths
      (range_spec 3 5) (Unseeded 6)
    = Some (of_Z n, next_state Sample.sin_id (Unseeded 6))
    /\ (3 <= n <= 5)%Z.
Proof.
  apply (range_resolution_within_bounds
           Sample.sin_id Sample.random_sevenths 3 5 (Unseeded 6)).
  - lia.
  - lia.
  - unfold MAX_SAFE_INTEGER. lia.
  - apply in_unit_sevenths.
Defined.

(** C3, as stated, fails on negative bounds: the range [-5--3] is split at
    every [-], so its bounds are read as [0] and [5], and with the draw [6/7]
    it resolves to [5], which is not between [-5] and [-3]. *)
Lemma negative_range_leaves_bounds :
  (-5 <= -3)%Z
  /\ in_unit (next_value Sample.sin_id Sample.random_sevenths (Unseeded 6))
  /\ range_spec (-5) (-3) = Str "-5--3"
  /\ getNumberWithinRange Sample.sin_id Sample.random_sevenths
       (range_spec (-5) (-3)) (Unseeded 6)
     = Some (of_Z 5, Unseeded 7)
  /\ ~ (-5 <= 5 <= -3)%Z.
Proof.
  split; [lia|]. split; [apply in_unit_sevenths|].
  split; [reflexivity|]. split; [reflexivity|]. lia.
Qed.

(** C5, as stated, fails on the infinities: they are truthy, so [range || 0]
    returns them and not [0]. *)
Lemma bare_infinity_is_kept :
  getNumberWithinRange Sample.sin_id Sample.random_zero (Num PosInf) (Unseeded 0)
  = Some (PosInf, Unseeded 0)
  /\ getNumberWithinRange Sample.sin_id Sample.random_zero (Num NegInf) (Unseeded 0)
     = Some (NegInf, Unseeded 0)
  /\ PosInf <> zero /\ NegInf <> zero.
Proof.
  repeat split; try reflexivity; discriminate.
Qed.

Lemma literal_resolution_keeps_generator_witness :
  is_range (Num (of_Z 7)) = false
  /\ getNumberWithinRange Sample.sin_id Sample.random_sevenths
       (Num (of_Z 7)) (Unseeded 3)
     = Some (literal_value (Num (of_Z 7)), Unseeded 3)
  /\ forall (A : Type) (next : Gen A),
       bind (getNumberWithinRange Sample.sin_id Sample.random_sevenths (Num (of_Z 7)))
            (fun _ => next) (Unseeded 3)
       = next (Unseeded 3).
Proof.
  split; [reflexivity|].
  apply (literal_resolution_keeps_generator
           Sample.sin_id Sample.random_sevenths (Num (of_Z 7)) (Unseeded 3)).
  reflexivity.
Defined.

(** ** Seeded generators *)

Section SeededFacts.

Variable sin : number -> number.

Lemma seeded_agree_ret {A} (a : A) : seeded_agree (ret a) (ret a).
Proof.
  intros s. split; [reflexivity|].
  intros a' g [= _ <-]. now exists s.
Qed.

Lemma seeded_agree_abort {A} : seeded_agree (@abort A) (@abort A).
Proof.
  intros s. split; [reflexivity|]. discriminate.
Qed.

Lemma seeded_agree_bind {A B} (m1 m2 : Gen A) (k1 k2 : A -> Gen B) :
  seeded_agree m1 m2 -> (forall a, seeded_agree (k1 a) (k2 a)) ->
  seeded_agree (bind m1 k1) (bind m2 k2).
Proof.
  intros Hm Hk s. destruct (Hm s) as [E Hs]. unfold bind. rewrite <- E.
  destruct (m1 (Seeded s)) as [[a g]|]; [|split; [reflexivity|discriminate]].
  destruct (Hs a g eq_refl) as [s' ->]. apply Hk.
Qed.

Lemma seeded_agree_generateNumber (random1 random2 : nat -> number) :
  seeded_agree (generateNumber sin random1) (generateNumber sin random2).
Proof.
  intros s. split; [reflexivity|].
  simpl. intros a g [= _ <-]. eauto.
Qed.

Lemma seeded_agree_iterate {A} (n : nat) (body1 body2 : A -> Gen A) :
  (forall acc, seeded_agree (body1 acc) (body2 acc)) ->
  forall acc, seeded_agree (iterate n body1 acc) (iterate n body2 acc).
Proof.
  intros Hb. induction n as [|n IH]; intros acc; simpl.
  - apply seeded_agree_ret.
  - apply seeded_agree_bind; [apply Hb | exact IH].
Qed.

Lemma seeded_agree_for_upto {A} (bound : number) (body1 body2 : A -> Gen A) :
  (forall acc, seeded_agree (body1 acc) (body2 acc)) ->
  forall acc, seeded_agree (for_upto bound body1 acc) (for_upto bound body2 acc).
Proof.
  intros Hb acc. unfold for_upto. destruct (trip_count bound).
  - now apply seeded_agree_iterate.
  - apply seeded_agree_abort.
Qed.

Ltac agree :=
  repeat match goal with
    | |- seeded_agree (ret _) _ => apply seeded_agree_ret
    | |- seeded_agree abort _ => apply seeded_agree_abort
    | |- seeded_agree (bind _ _) _ => apply seeded_agree_bind
    | |- seeded_agree (for_upto _ _ _) _ => apply seeded_agree_for_upto
    | |- seeded_agree (generateNumber _ _) _ => apply seeded_agree_generateNumber
    | |- forall _, _ => intro
    end.

Variable DICTIONARY : list string.
Variables random1 random2 : nat -> number.

Lemma seeded_agree_getNumberWithinRange (r : size) :
  seeded_agree (getNumberWithinRange sin random1 r)
               (getNumberWithinRange sin random2 r).
Proof.
  destruct r as [n|s]; simpl; [agree|].
  destruct (negb (includes "-" s)); agree.
Qed.

Lemma seeded_agree_generateWords (length : number) :
  seeded_agree (generateWords sin random1 DICTIONARY length)
               (generateWords sin random2 DICTIONARY length).
Proof.
  unfold generateWords. agree.
Qed.

Lemma seeded_agree_capitalize_all (words : list (option string)) :
  forall title : list string,
    seeded_agree (capitalize_all words title) (capitalize_all words title).
Proof.
  induction words as [|[w|] words IH]; intros title; simpl; agree. apply IH.
Qed.

Lemma seeded_agree_generateTitle (this : TpLorem) :
  seeded_agree (generateTitle sin random1 DICTIONARY this)
               (generateTitle sin random2 DICTIONARY this).
Proof.
  unfold generateTitle.
  agree; first [ apply seeded_agree_getNumberWithinRange
               | apply seeded_agree_generateWords
               | apply seeded_agree_capitalize_all ].
Qed.

Lemma seeded_agree_generateList (this : TpLorem) :
  seeded_agree (generateList sin random1 DICTIONARY this)
               (generateList sin random2 DICTIONARY this).
Proof.
  unfold generateList.
  agree; try apply seeded_agree_getNumberWithinRange;
    try apply seeded_agree_generateWords.
  destruct (String.eqb (type this) "dl"); agree.
  apply seeded_agree_generateTitle.
Qed.

Lemma seeded_agree_sentence_loop (len : nat) (rest : list (option string)) :
  forall (j : nat) (sentence : string),
    seeded_agree (sentence_loop sin random1 len j rest sentence)
                 (sentence_loop sin random2 len j rest sentence).
Proof.
  induction rest as [|word rest IH]; intros j sentence; simpl; [agree|].
  destruct (j =? 0)%nat.
  - destruct word; [apply IH | agree].
  - agree; [|apply IH].
    destruct (Z.of_nat j <? Z.of_nat len - 3)%Z; agree.
Qed.

Lemma seeded_agree_generateSentences (this : TpLorem) :
  seeded_agree (generateSentences sin random1 DICTIONARY this)
               (generateSentences sin random2 DICTIONARY this).
Proof.
  unfold generateSentences.
  agree; first [ apply seeded_agree_getNumberWithinRange
               | apply seeded_agree_generateWords
               | apply seeded_agree_sentence_loop ].
Qed.

Lemma seeded_agree_generateParagraphs (this : TpLorem) :
  seeded_agree (generateParagraphs sin random1 DICTIONARY this)
               (generateParagraphs sin random2 DICTIONARY this).
Proof.
  unfold generateParagraphs.
  agree; first [ apply seeded_agree_getNumberWithinRange
               | apply seeded_agree_generateSentences ].
Qed.

Lemma seeded_nth_draw (n : nat) (s : number) :
  nth_draw sin random1 n (Seeded s) = nth_draw sin random2 n (Seeded s).
Proof.
  unfold nth_draw. revert s. induction n as [|n IH]; intros s; [reflexivity|].
  simpl. apply IH.
Qed.

(** C2.  Two runs of [generateContent] on the same properties with a
    numeric seed, over the same dictionary, return the same string, whatever
    [Math.random] would have returned in either run; the seeded generator
    yields the same values in both. *)
Theorem seeded_generation_is_reproducible
    (parseFloat : string -> number) (s : number) (this : TpLorem) :
  let seeded := with_seed (SeedNumber s) this in
  generateContent sin random1 parseFloat DICTIONARY seeded
  = generateContent sin random2 parseFloat DICTIONARY seeded
  /\ forall n,
       draws sin random1 n (install_generator parseFloat seeded)
       = draws sin random2 n (install_generator parseFloat seeded).
Proof.
  intros seeded. split.
  - unfold generateContent.
    change (install_generator parseFloat seeded) with (Seeded s).
    repeat match goal with
           | |- context [if ?b then _ else _] => destruct b
           end;
      f_equal;
      first [ apply seeded_agree_generateTitle
            | apply seeded_agree_generateSentences
            | apply seeded_agree_generateParagraphs
            | apply seeded_agree_generateList
            | reflexivity ].
  - intros n. change (install_generator parseFloat seeded) with (Seeded s).
    unfold draws. apply map_ext. intros k. apply seeded_nth_draw.
Qed.

End SeededFacts.

(** ** The generator seeded with 0 *)

Section SeedZero.

Variable sin : number -> number.
Variable random : nat -> number.
Variable DICTIONARY : list string.

Hypothesis sin_zero : sin zero = zero.

Lemma seeded_step_zero : seeded_step sin zero = (zero, zero).
Proof.
  unfold seeded_step. now rewrite sin_zero.
Qed.

Lemma advance_zero (n : nat) : advance sin n (Seeded zero) = Seeded zero.
Proof.
  induction n as [|n IH]; [reflexivity|].
  cbn [Spec.advance Spec.next_state]. now rewrite seeded_step_zero.
Qed.

Lemma nth_draw_zero (n : nat) : nth_draw sin random n (Seeded zero) = zero.
Proof.
  unfold nth_draw. rewrite advance_zero.
  cbn [Spec.next_value]. now rewrite seeded_step_zero.
Qed.

Lemma Number_canonical (s : string) :
  match Number s with
  | Fin q => Qred q = q
  | _ => True
  end.
Proof.
  assert (U : forall t, match unsigned_literal t with
                        | Some (Fin q) => Qred q = q
                        | _ => True
                        end).
  { intros t. unfold unsigned_literal.
    destruct (String.eqb t "Infinity"); [exact I|].
    unfold unsigned_decimal.
    destruct (span_digits 10 0 0 t) as [[i ni] r1].
    destruct (match r1 with
              | EmptyString => (0%N, 0%nat, r1)
              | String c r =>
                  if Ascii.eqb c "." then span_digits 10 0 0 r
                  else (0%N, 0%nat, r1)
              end) as [[f nf] r2].
    destruct (ni + nf)%nat; [exact I|].
    destruct (exponent_part r2); simpl; [|exact I].
    apply Qcanon.Qred_involutive. }
  unfold Number. destruct (trim s) as [|c t] eqn:E; [reflexivity|].
  unfold decimal_literal.
  destruct (Ascii.eqb c "+").
  - specialize (U t). destruct (unsigned_literal t) as [v|]; [exact U|].
    destruct (non_decimal_literal (String c t)) as [v|] eqn:N; [|exact I].
    revert N. unfold non_decimal_literal. destruct t as [|p ds]; [discriminate|].
    destruct (if negb (Ascii.eqb c "0") then None
              else if Ascii.eqb p "b" || Ascii.eqb p "B" then Some 2%N
              else if Ascii.eqb p "o" || Ascii.eqb p "O" then Some 8%N
              else if Ascii.eqb p "x" || Ascii.eqb p "X" then Some 16%N
              else None) as [r|]; [|discriminate].
    destruct (all_digits r ds); [|discriminate].
    intros [= <-]. apply Qred_inject_Z.
  - destruct (Ascii.eqb c "-").
    + specialize (U t). destruct (unsigned_literal t) as [v|]; cbn [option_map].
      * destruct v as [| | |q]; cbn [neg]; auto.
        cbv beta iota in U. rewrite Qred_opp. now rewrite U.
      * destruct (non_decimal_literal (String c t)) as [v|] eqn:N; [|exact I].
        revert N. unfold non_decimal_literal. destruct t as [|p ds]; [discriminate|].
        destruct (if negb (Ascii.eqb c "0") then None
                  else if Ascii.eqb p "b" || Ascii.eqb p "B" then Some 2%N
                  else if Ascii.eqb p "o" || Ascii.eqb p "O" then Some 8%N
                  else if Ascii.eqb p "x" || Ascii.eqb p "X" then Some 16%N
                  else None) as [r|]; [|discriminate].
        destruct (all_digits r ds); [|discriminate].
        intros [= <-]. apply Qred_inject_Z.
    + specialize (U (String c t)).
      destruct (unsigned_literal (String c t)) as [v|]; [exact U|].
      destruct (non_decimal_literal (String c t)) as [v|] eqn:N; [|exact I].
      revert N. unfold non_decimal_literal. destruct t as [|p ds]; [discriminate|].
      destruct (if negb (Ascii.eqb c "0") then None
                else if Ascii.eqb p "b" || Ascii.eqb p "B" then Some 2%N
                else if Ascii.eqb p "o" || Ascii.eqb p "O" then Some 8%N
                else if Ascii.eqb p "x" || Ascii.eqb p "X" then Some 16%N
                else None) as [r|]; [|discriminate].
      destruct (all_digits r ds); [|discriminate].
      intros [= <-]. apply Qred_inject_Z.
Qed.

Lemma or_zero_Number_canonical (s : option string) (q : Q) :
  or_zero (Number_opt s) = Fin q -> Qred q = q.
Proof.
  unfold or_zero. destruct s as [s|]; simpl.
  - pose proof (Number_canonical s) as H.
    destruct (truthy (Number s)).
    + intros E. rewrite E in H. exact H.
    + intros [= <-]. reflexivity.
  - intros [= <-]. reflexivity.
Qed.

(** With a zero draw a range with finite bounds resolves to its lower
    bound. *)
Lemma range_resolution_zero (s : string) :
  includes "-" s = true ->
  is_finite (range_min s) = true -> is_finite (range_max s) = true ->
  getNumberWithinRange sin random (Str s) (Seeded zero)
  = Some (range_min s, Seeded zero).
Proof.
  intros Hinc Hmin Hmax.
  rewrite (getNumberWithinRange_range sin random s _ Hinc).
  cbn [Spec.next_value Spec.next_state]. rewrite seeded_step_zero. cbn [fst snd].
  destruct (range_min s) as [| | |m] eqn:Em; try discriminate.
  destruct (range_max s) as [| | |M] eqn:EM; try discriminate.
  rewrite clampRandom_zero_draw; [reflexivity|].
  exact (or_zero_Number_canonical _ _ Em).
Qed.

Lemma word_index_zero : word_index DICTIONARY zero = zero.
Proof.
  unfold word_index, of_nat, one. rewrite sub_of_Z.
  now apply clampRandom_zero_draw.
Qed.

(** C10 (as amended).  A run seeded with 0 installs the seeded generator in
    state 0; every value it returns is 0 and its state stays 0.  So every
    range of 7-bit characters whose two bounds are finite numbers of
    magnitude at most [Number.MAX_SAFE_INTEGER], and in particular every
    range [{min}-{max}] of natural numbers up to it, resolves to its lower
    bound, and every word drawn is the one at dictionary index 0.  The
    bounds keep the statement to the ranges that the platform reads as
    finite numbers: a numeral above 1.8e308 is read as [Infinity] there, and
    a range with an infinite bound resolves to [NaN]. *)
Theorem seed_zero_is_a_fixed_point
    (parseFloat : string -> number) (this : TpLorem) :
  let g := install_generator parseFloat (with_seed (SeedNumber zero) this) in
  g = Seeded zero
  /\ (forall n, nth_draw sin random n g = zero /\ advance sin n g = g)
  /\ (forall s,
        includes "-" s = true ->
        all_chars is_ascii_char s = true ->
        safe_number (range_min s) -> safe_number (range_max s) ->
        getNumberWithinRange sin random (Str s) g = Some (range_min s, g))
  /\ (forall min max : N,
        (Z.of_N min <= MAX_SAFE_INTEGER)%Z ->
        (Z.of_N max <= MAX_SAFE_INTEGER)%Z ->
        getNumberWithinRange sin random
          (range_spec (Z.of_N min) (Z.of_N max)) g
        = Some (of_Z (Z.of_N min), g))
  /\ (forall length n,
        trip_count length = Some n ->
        word_index DICTIONARY zero = zero
        /\ generateWords sin random DICTIONARY length g
           = Some (repeat (nth_error DICTIONARY 0) n, g)).
Proof.
  intros g. change g with (Seeded zero).
  split; [reflexivity|].
  split; [intros n; split; [apply nth_draw_zero | apply advance_zero]|].
  split.
  { intros s Hinc _ Hmin Hmax. apply range_resolution_zero; [exact Hinc| |].
    - destruct (range_min s); try contradiction; reflexivity.
    - destruct (range_max s); try contradiction; reflexivity. }
  split.
  - intros min max _ _.
    destruct (range_spec_bounds min max) as (s & Hs & Hinc & Hlo & Hhi).
    rewrite Hs, range_resolution_zero, Hlo; try reflexivity; try assumption.
    + now rewrite Hlo.
    + now rewrite Hhi.
  - intros length n Hn. split; [apply word_index_zero|].
    rewrite (generateWords_eq sin random DICTIONARY length n _ Hn).
    rewrite advance_zero. f_equal. f_equal.
    transitivity (map (fun _ : nat => nth_error DICTIONARY 0) (seq 0 n)).
    + apply map_ext. intros k.
      now rewrite nth_draw_zero, word_index_zero.
    + now rewrite map_const, length_seq.
Qed.

End SeedZero.

(** ** Generators that keep the contract of [next()] *)

Section UnitFacts.

Variable sin : number -> number.
Variable random : nat -> number.
Variable DICTIONARY : list string.

Hypothesis DICTIONARY_nonempty : DICTIONARY <> [].

Local Abbreviation next_value := (next_value sin random).
Local Abbreviation next_state := (next_state sin).
Local Abbreviation advance := (advance sin).
Local Abbreviation nth_draw := (nth_draw sin random).
Local Abbreviation unit_stream := (unit_stream sin random).
Local Abbreviation getNumberWithinRange := (getNumberWithinRange sin random).
Local Abbreviation generateWords := (generateWords sin random DICTIONARY).
Local Abbreviation generateTitle := (generateTitle sin random DICTIONARY).
Local Abbreviation drawn_words := (drawn_words sin random DICTIONARY).
Local Abbreviation words_of_size := (words_of_size sin random DICTIONARY).

Lemma DICTIONARY_at_of_Z (n : Z) :
  (0 <= n)%Z ->
  DICTIONARY_at DICTIONARY (of_Z n) = nth_error DICTIONARY (Z.to_nat n).
Proof.
  intros H. unfold DICTIONARY_at, of_Z. rewrite Qfloor_Z.
  assert (E : Qeq_bool (inject_Z n) (inject_Z n) = true)
    by (apply Qeq_bool_iff; reflexivity).
  rewrite E. apply Z.leb_le in H. now rewrite H.
Qed.

(** A draw in [[0, 1)] picks a word of the dictionary, at an index within
    [[0, DICTIONARY.length - 1]]. *)
Lemma word_at_unit (v : number) :
  in_unit v ->
  exists (i : nat) (w : string),
    (i < List.length DICTIONARY)%nat
    /\ word_index DICTIONARY v = of_nat i
    /\ nth_error DICTIONARY i = Some w
    /\ DICTIONARY_at DICTIONARY (word_index DICTIONARY v) = Some w.
Proof.
  intros Hv.
  assert (Hlen : (0 < List.length DICTIONARY)%nat).
  { destruct DICTIONARY; [contradiction|]. simpl. lia. }
  unfold word_index, of_nat, one. rewrite sub_of_Z.
  destruct (clampRandom_within v 0 (Z.of_nat (List.length DICTIONARY) - 1) Hv
              ltac:(lia)) as (n & Hn & Hb).
  unfold zero. rewrite Hn.
  assert (Hi : (Z.to_nat n < List.length DICTIONARY)%nat) by lia.
  destruct (nth_error DICTIONARY (Z.to_nat n)) as [w|] eqn:Ew.
  - exists (Z.to_nat n), w. repeat split; try assumption.
    + now rewrite Z2Nat.id by lia.
    + rewrite DICTIONARY_at_of_Z by lia. exact Ew.
  - apply nth_error_None in Ew. lia.
Qed.

Lemma drawn_words_unit (n : nat) (g : NumberGenerator) :
  unit_stream g ->
  exists ws, drawn_words n g = map Some ws
             /\ List.length ws = n
             /\ Forall (fun w => In w DICTIONARY) ws.
Proof.
  intros Hg. unfold Spec.drawn_words.
  assert (G : forall l : list nat,
             exists ws,
               map (fun k => DICTIONARY_at DICTIONARY
                               (word_index DICTIONARY (nth_draw k g))) l
               = map Some ws
               /\ List.length ws = List.length l
               /\ Forall (fun w => In w DICTIONARY) ws).
  { induction l as [|k l IH].
    - exists []. repeat split. constructor.
    - destruct IH as (ws & E & Hlen & Hin).
      destruct (word_at_unit (nth_draw k g) (Hg k))
        as (i & w & _ & _ & Hw & Hat).
      exists (w :: ws). simpl. rewrite Hat, E. repeat split.
      + now rewrite Hlen.
      + constructor; [|exact Hin]. now apply nth_error_In with i. }
  destruct (G (seq 0 n)) as (ws & E & Hlen & Hin).
  exists ws. rewrite length_seq in Hlen. now repeat split.
Qed.

Lemma drawn_words_length (n : nat) (g : NumberGenerator) :
  List.length (drawn_words n g) = n.
Proof.
  unfold Spec.drawn_words. now rewrite length_map, length_seq.
Qed.

Lemma generateWords_drawn (length : number) (n : nat) (g : NumberGenerator) :
  trip_count length = Some n ->
  generateWords length g = Some (drawn_words n g, advance n g).
Proof.
  apply generateWords_eq.
Qed.

(** A size without infinite bounds resolves, on a draw in [[0, 1)], to a
    finite number. *)
Lemma resolve_finite (r : size) (g : NumberGenerator) :
  finite_size r = true ->
  in_unit (next_value g) ->
  exists (q : Q) (k : nat),
    getNumberWithinRange r g = Some (Fin q, advance k g).
Proof.
  intros Hr Hv. destruct (is_range r) eqn:Er.
  - destruct r as [n|s]; [discriminate|]. simpl in Er, Hr. rewrite Er in Hr.
    apply andb_true_iff in Hr. destruct Hr as [Hlo Hhi].
    rewrite (getNumberWithinRange_range sin random s g Er).
    destruct (range_min s) as [| | |m]; try discriminate.
    destruct (range_max s) as [| | |M]; try discriminate.
    destruct (next_value g) as [| | |v]; try contradiction.
    eexists. exists 1%nat. reflexivity.
  - rewrite (getNumberWithinRange_literal sin random r g Er).
    assert (Hf : is_finite (literal_value r) = true).
    { destruct r as [n|s]; simpl in *; [exact Hr|]. now rewrite Er in Hr. }
    destruct (literal_value r) as [| | |q]; try discriminate.
    exists q, 0%nat. reflexivity.
Qed.

(** On such a generator a size without infinite bounds resolves to a word
    count, and that many dictionary words are drawn. *)
Lemma resolve_and_draw (len : size) (g : NumberGenerator) :
  finite_size len = true -> unit_stream g ->
  exists numWords g1 ws g',
    getNumberWithinRange len g = Some (numWords, g1)
    /\ generateWords numWords g1 = Some (map Some ws, g')
    /\ words_of_size len g ws g'
    /\ unit_stream g'.
Proof.
  intros Hlen Hg.
  destruct (resolve_finite len g Hlen (Hg 0%nat)) as (q & k & Hres).
  pose proof (unit_stream_advance sin random k g Hg) as Hg1.
  set (n := Z.to_nat (Qceiling q)).
  destruct (drawn_words_unit n (advance k g) Hg1) as (ws & Ews & Hws & Hin).
  exists (Fin q), (advance k g), ws, (advance n (advance k g)).
  split; [exact Hres|]. split.
  - rewrite (generateWords_drawn (Fin q) n) by reflexivity. now rewrite Ews.
  - split.
    + exists (Fin q), (advance k g), n. repeat split; assumption.
    + now apply unit_stream_advance.
Qed.

Lemma capitalize_all_defined (ws : list string) (title : list string)
    (g : NumberGenerator) :
  capitalize_all (map Some ws) title g
  = Some ((title ++ map capitalize ws)%list, g).
Proof.
  revert title. induction ws as [|w ws IH]; intros title; simpl.
  - now rewrite List.app_nil_r.
  - rewrite IH. now rewrite <- List.app_assoc.
Qed.

Lemma join_words_defined (ws : list string) :
  join_words (map Some ws) = join " " ws.
Proof.
  unfold join_words. now rewrite map_map, map_id.
Qed.

(** On such a generator [generateTitle] returns, and follows the title
    rule for [this.length]. *)
Lemma generateTitle_unit (this : TpLorem) (g : NumberGenerator) :
  finite_size (length this) = true -> unit_stream g ->
  exists text g',
    generateTitle this g = Some (text, g')
    /\ title_rule sin random DICTIONARY (length this) g text g'
    /\ unit_stream g'.
Proof.
  intros Hlen Hg.
  destruct (resolve_and_draw (length this) g Hlen Hg)
    as (numWords & g1 & ws & g' & Hres & Hdraw & Hspec & Hg').
  exists (join " " (map capitalize ws)), g'.
  split; [|split; [exists ws; split; [exact Hspec | reflexivity] | exact Hg']].
  unfold Lorem.generateTitle, bind. rewrite Hres, Hdraw.
  now rewrite capitalize_all_defined.
Qed.

End UnitFacts.

(** ** Words, capitals and separators *)

Section StringFacts.

Lemma lower_code (c : ascii) :
  is_lower c = true -> (97 <= nat_of_ascii c <= 122)%nat.
Proof.
  unfold is_lower. intros H. apply andb_true_iff in H.
  destruct H as [H1 H2]. apply Nat.leb_le in H1, H2. lia.
Qed.

Lemma upper_code (c : ascii) :
  is_upper c = true -> (65 <= nat_of_ascii c <= 90)%nat.
Proof.
  unfold is_upper. intros H. apply andb_true_iff in H.
  destruct H as [H1 H2]. apply Nat.leb_le in H1, H2. lia.
Qed.

Lemma toUpperCase_lower (c : ascii) :
  is_lower c = true -> is_upper (toUpperCase_char c) = true.
Proof.
  intros H. pose proof (lower_code c H) as Hc.
  unfold toUpperCase_char. fold (is_lower c). rewrite H.
  unfold is_upper. rewrite nat_ascii_embedding by lia.
  apply andb_true_iff. split; apply Nat.leb_le; lia.
Qed.

Lemma capitalize_starts_upper (w : string) :
  lowercase_word w = true -> starts_upper (capitalize w) = true.
Proof.
  destruct w as [|c w]; [discriminate|]. simpl.
  intros H. apply andb_true_iff in H. now apply toUpperCase_lower.
Qed.

Lemma includes_lower (c : ascii) (s : string) :
  not_a_letter c -> all_chars is_lower s = true -> includes c s = false.
Proof.
  intros Hc. induction s as [|a s IH]; [reflexivity|]. simpl.
  intros H. apply andb_true_iff in H. destruct H as [Ha Hs].
  rewrite (IH Hs), orb_false_r. apply Ascii.eqb_neq. intros ->.
  apply lower_code in Ha. unfold not_a_letter in Hc. lia.
Qed.

Lemma includes_capitalize (c : ascii) (w : string) :
  not_a_letter c -> lowercase_word w = true ->
  includes c (capitalize w) = false.
Proof.
  intros Hc. destruct w as [|a w]; [discriminate|]. simpl.
  intros H. apply andb_true_iff in H. destruct H as [Ha Hw].
  rewrite (includes_lower c w Hc Hw), orb_false_r.
  apply Ascii.eqb_neq. intros E.
  pose proof (upper_code _ (toUpperCase_lower a Ha)) as Hu.
  rewrite E in Hu. unfold not_a_letter in Hc. lia.
Qed.

Lemma includes_lowercase_word (c : ascii) (w : string) :
  not_a_letter c -> lowercase_word w = true -> includes c w = false.
Proof.
  intros Hc. destruct w as [|a w]; [discriminate|].
  unfold lowercase_word. now apply includes_lower.
Qed.

Lemma split_whole (c : ascii) (s : string) :
  includes c s = false -> split c s = [s].
Proof.
  induction s as [|a s IH]; [reflexivity|]. simpl.
  intros H. apply orb_false_iff in H. destruct H as [Ha Hs].
  now rewrite Ha, (IH Hs).
Qed.

Lemma split_first (c : ascii) (s1 s2 : string) :
  includes c s1 = false ->
  split c (s1 ++ String c s2) = s1 :: split c s2.
Proof.
  induction s1 as [|a s IH]; simpl.
  - intros _. now rewrite Ascii.eqb_refl.
  - intros H. apply orb_false_iff in H. destruct H as [Ha Hs].
    now rewrite Ha, (IH Hs).
Qed.

Lemma space_not_a_letter : not_a_letter " ".
Proof. left. vm_compute. repeat constructor. Qed.

Lemma comma_not_a_letter : not_a_letter ",".
Proof. left. vm_compute. repeat constructor. Qed.

Lemma period_not_a_letter : not_a_letter ".".
Proof. left. vm_compute. repeat constructor. Qed.

End StringFacts.

(** ** Titles *)

Section Titles.

Variable sin : number -> number.
Variable random : nat -> number.
Variable parseFloat : string -> number.
Variable DICTIONARY : list string.

Hypothesis DICTIONARY_nonempty : DICTIONARY <> [].
Hypothesis DICTIONARY_lowercase :
  Forall (fun w => lowercase_word w = true) DICTIONARY.

Lemma dictionary_word_lowercase (i : nat) (w : string) :
  nth_error DICTIONARY i = Some w -> lowercase_word w = true.
Proof.
  intros H. apply nth_error_In in H.
  rewrite Forall_forall in DICTIONARY_lowercase.
  now apply DICTIONARY_lowercase.
Qed.

(** C7.  For type [title] with [length] 3, over a dictionary that is not
    empty and holds lower-case words, on a generator whose values lie in
    [[0, 1)]: the output is three words joined by single spaces; each is the
    dictionary word at the index computed from one draw, an index within
    [[0, DICTIONARY.length - 1]], with its first letter in upper case. *)
Theorem title_of_three_words (this : TpLorem) :
  type this = "title" ->
  length this = Num (of_Z 3) \/ length this = Str "3" ->
  unit_stream sin random (install_generator parseFloat this) ->
  exists (i1 i2 i3 : nat) (w1 w2 w3 : string),
    let g := install_generator parseFloat this in
    let output := capitalize w1 ++ " " ++ capitalize w2 ++ " " ++ capitalize w3 in
    generateContent sin random parseFloat DICTIONARY this = Some output
    /\ split " " output = [capitalize w1; capitalize w2; capitalize w3]
    /\ Forall (fun w => starts_upper w = true)
              [capitalize w1; capitalize w2; capitalize w3]
    /\ Forall (fun i => (i < List.length DICTIONARY)%nat) [i1; i2; i3]
    /\ word_index DICTIONARY (nth_draw sin random 0 g) = of_nat i1
    /\ word_index DICTIONARY (nth_draw sin random 1 g) = of_nat i2
    /\ word_index DICTIONARY (nth_draw sin random 2 g) = of_nat i3
    /\ nth_error DICTIONARY i1 = Some w1
    /\ nth_error DICTIONARY i2 = Some w2
    /\ nth_error DICTIONARY i3 = Some w3.
Proof.
  intros Htype Hlen Hg.
  set (g := install_generator parseFloat this) in *.
  destruct (word_at_unit DICTIONARY DICTIONARY_nonempty _ (Hg 0%nat))
    as (i1 & w1 & Hi1 & Hx1 & Hw1 & Hat1).
  destruct (word_at_unit DICTIONARY DICTIONARY_nonempty _ (Hg 1%nat))
    as (i2 & w2 & Hi2 & Hx2 & Hw2 & Hat2).
  destruct (word_at_unit DICTIONARY DICTIONARY_nonempty _ (Hg 2%nat))
    as (i3 & w3 & Hi3 & Hx3 & Hw3 & Hat3).
  pose proof (dictionary_word_lowercase i1 w1 Hw1) as L1.
  pose proof (dictionary_word_lowercase i2 w2 Hw2) as L2.
  pose proof (dictionary_word_lowercase i3 w3 Hw3) as L3.
  exists i1, i2, i3, w1, w2, w3. cbv zeta.
  split; [|split; [|split; [|split]]].
  - unfold generateContent. fold g. rewrite Htype. cbn [String.eqb Ascii.eqb Bool.eqb].
    cbv iota.
    assert (Hres : getNumberWithinRange sin random (length this) g
                   = Some (of_Z 3, g)).
    { destruct Hlen as [-> | ->]; reflexivity. }
    unfold generateTitle, bind. rewrite Hres.
    rewrite (generateWords_eq sin random DICTIONARY (of_Z 3) 3 g eq_refl).
    cbn [seq map]. rewrite Hat1, Hat2, Hat3.
    reflexivity.
  - cbn [String.append].
    rewrite split_first
      by (apply includes_capitalize; [apply space_not_a_letter | exact L1]).
    rewrite split_first
      by (apply includes_capitalize; [apply space_not_a_letter | exact L2]).
    rewrite split_whole
      by (apply includes_capitalize; [apply space_not_a_letter | exact L3]).
    reflexivity.
  - repeat constructor; now apply capitalize_starts_upper.
  - repeat constructor; assumption.
  - repeat split; assumption.
Qed.

End Titles.

(** ** Sentences *)

Section StringAppend.

Lemma append_assoc (a b c : string) : (a ++ b) ++ c = a ++ (b ++ c).
Proof.
  induction a as [|x a IH]; [reflexivity|]. simpl. now rewrite IH.
Qed.

Lemma append_empty_r (a : string) : a ++ EmptyString = a.
Proof.
  induction a as [|x a IH]; [reflexivity|]. simpl. now rewrite IH.
Qed.

Lemma trimEnd_app_space (x : string) : trimEnd (x ++ " ") = trimEnd x.
Proof.
  induction x as [|a x IH]; [reflexivity|]. simpl. now rewrite IH.
Qed.

Lemma trimEnd_app_char (x : string) (c : ascii) :
  is_space c = false ->
  trimEnd (x ++ String c EmptyString) = x ++ String c EmptyString.
Proof.
  intros Hc. induction x as [|a x IH]; simpl.
  - now rewrite Hc.
  - rewrite IH. now destruct x.
Qed.

Lemma trimStart_char (c : ascii) (x : string) :
  is_space c = false -> trimStart (String c x) = String c x.
Proof.
  intros Hc. simpl. now rewrite Hc.
Qed.

Lemma concat_with_spaces (s : string) (ss : list string) :
  concat_strings (map (fun x => x ++ " ") (s :: ss)) = join " " (s :: ss) ++ " ".
Proof.
  revert s. induction ss as [|s' ss IH]; intros s.
  - simpl. now rewrite append_empty_r.
  - change (concat_strings (map (fun x => x ++ " ") (s :: s' :: ss)))
      with ((s ++ " ") ++ concat_strings (map (fun x => x ++ " ") (s' :: ss))).
    rewrite IH.
    change (join " " (s :: s' :: ss)) with (s ++ " " ++ join " " (s' :: ss)).
    now rewrite !append_assoc.
Qed.

Lemma join_last (sep : string) (ss : list string) (x : string) (c : ascii) :
  ss <> [] ->
  Forall (fun s => exists y, s = y ++ String c EmptyString) ss ->
  exists y, join sep ss = y ++ String c EmptyString.
Proof.
  induction ss as [|s ss IH]; [contradiction|]. intros _ H.
  inversion H as [|? ? [y Hy] Hss]; subst.
  destruct ss as [|s' ss].
  - now exists y.
  - destruct (IH ltac:(discriminate) Hss) as [z Hz].
    exists ((y ++ String c EmptyString) ++ sep ++ z).
    change (join sep ((y ++ String c EmptyString) :: s' :: ss))
      with ((y ++ String c EmptyString) ++ sep ++ join sep (s' :: ss)).
    rewrite Hz. now rewrite !append_assoc.
Qed.

End StringAppend.

Section Sentences.

Variable sin : number -> number.
Variable random : nat -> number.
Variable DICTIONARY : list string.

Local Abbreviation next_value := (next_value sin random).
Local Abbreviation next_state := (next_state sin).
Local Abbreviation advance := (advance sin).
Local Abbreviation sentence_loop := (sentence_loop sin random).

(** The first word is capitalized; no value is drawn for it. *)
Lemma sentence_loop_first (len : nat) (w : string)
    (rest : list (option string)) (sentence : string) (g : NumberGenerator) :
  sentence_loop len 0 (Some w :: rest) sentence g
  = sentence_loop len 1 rest (sentence ++ capitalize w) g.
Proof.
  reflexivity.
Qed.

(** At a position [0 < j < len - 3] exactly one value is drawn; it decides
    whether [", "] is appended before the space and the word. *)
Lemma sentence_loop_comma_draw (len j : nat) (word : option string)
    (rest : list (option string)) (sentence : string) (g : NumberGenerator) :
  (0 < j)%nat -> (Z.of_nat j < Z.of_nat len - 3)%Z ->
  sentence_loop len j (word :: rest) sentence g
  = sentence_loop len (S j) rest
      ((if comma_drawn (next_value g) then sentence ++ ", " else sentence)
       ++ " " ++ to_text word)
      (next_state g).
Proof.
  intros Hj Hlt. cbn [Lorem.sentence_loop].
  destruct (Nat.eqb_spec j 0) as [->|_]; [lia|].
  apply Z.ltb_lt in Hlt. rewrite Hlt.
  unfold bind at 1. unfold bind at 1.
  now rewrite generateNumber_eq.
Qed.

(** At a position [j >= len - 3] other than the first no value is drawn and
    only the space and the word are appended. *)
Lemma sentence_loop_no_draw (len j : nat) (word : option string)
    (rest : list (option string)) (sentence : string) (g : NumberGenerator) :
  (0 < j)%nat -> (Z.of_nat len - 3 <= Z.of_nat j)%Z ->
  sentence_loop len j (word :: rest) sentence g
  = sentence_loop len (S j) rest (sentence ++ " " ++ to_text word) g.
Proof.
  intros Hj Hge. cbn [Lorem.sentence_loop].
  destruct (Nat.eqb_spec j 0) as [->|_]; [lia|].
  apply Z.ltb_ge in Hge. now rewrite Hge.
Qed.

(** The comma decision on a draw [v] of [[0, 1)]: a comma exactly when
    [floor (11 v) = 0], that is when [v < 1/11]. *)
Lemma comma_drawn_threshold (v : Q) :
  in_unit (Fin v) -> (comma_drawn (Fin v) = true <-> v < 1 # 11).
Proof.
  intros [H0 H1]. unfold comma_drawn, commaFrequency, zero.
  rewrite clampRandom_of_Z. unfold strict_eq, of_Z.
  rewrite Qeq_bool_iff. change (10 - 0 + 1)%Z with 11%Z.
  pose proof (Qfloor_le (v * inject_Z 11)) as Hle.
  pose proof (Qlt_floor (v * inject_Z 11)) as Hlt.
  pose proof (Qfloor_unit_scaled v 11 H0 H1 ltac:(lia)) as Hb.
  set (k := Qfloor (v * inject_Z 11)) in *.
  unfold Qeq, Qle, Qlt in *. simpl in *. split; intros H; nia.
Qed.

(** A sentence of five defined words: one value is drawn, for the second
    word. *)
Lemma sentence_of_five (w1 w2 w3 w4 w5 : string) (g : NumberGenerator) :
  sentence_loop 5 0 [Some w1; Some w2; Some w3; Some w4; Some w5] EmptyString g
  = Some (capitalize w1 ++ separator (comma_drawn (next_value g))
            ++ w2 ++ " " ++ w3 ++ " " ++ w4 ++ " " ++ w5,
          next_state g).
Proof.
  rewrite sentence_loop_first.
  rewrite sentence_loop_comma_draw by lia.
  rewrite !sentence_loop_no_draw by lia.
  cbn [Lorem.sentence_loop ret to_text]. f_equal. f_equal.
  destruct (comma_drawn (next_value g)); cbn [separator];
    rewrite !append_assoc; reflexivity.
Qed.

End Sentences.


(** ** Sentences of five words *)

Section FiveWords.

Variable sin : number -> number.
Variable random : nat -> number.
Variable parseFloat : string -> number.
Variable DICTIONARY : list string.

Hypothesis DICTIONARY_nonempty : DICTIONARY <> [].
Hypothesis DICTIONARY_lowercase :
  Forall (fun w => lowercase_word w = true) DICTIONARY.

Local Abbreviation unit_stream := (unit_stream sin random).
Local Abbreviation getNumberWithinRange := (getNumberWithinRange sin random).
Local Abbreviation five_word_sentence := (five_word_sentence DICTIONARY).

(** The body of the outer loop of [generateSentences]. *)
Local Abbreviation sentence_body this :=
  (fun sentences : string =>
     numWords <- getNumberWithinRange (wordsPerSentence this) ;;
     words <- generateWords sin random DICTIONARY numWords ;;
     sentence <- sentence_loop sin random (List.length words) 0 words EmptyString ;;
     ret (sentences ++ sentence ++ ". ")).

Lemma resolve_five (g : NumberGenerator) :
  unit_stream g ->
  getNumberWithinRange (Str "5-5") g = Some (of_Z 5, next_state sin g).
Proof.
  intros Hg.
  destruct (resolve_natural_range sin random 5 5 g
              ltac:(lia) ltac:(lia) (Hg 0%nat)) as (n & Hn & Hb).
  assert (n = 5%Z) by lia. subst n. exact Hn.
Qed.

Lemma five_word_body (this : TpLorem) (sentences : string) (g : NumberGenerator) :
  wordsPerSentence this = Str "5-5" -> unit_stream g ->
  exists s g',
    five_word_sentence s
    /\ sentence_body this sentences g = Some (sentences ++ s ++ " ", g')
    /\ unit_stream g'.
Proof.
  intros Hwps Hg.
  pose proof (unit_stream_advance sin random 1 g Hg) as Hg1.
  change (advance sin 1 g) with (next_state sin g) in Hg1.
  destruct (drawn_words_unit sin random DICTIONARY DICTIONARY_nonempty 5 _ Hg1)
    as (ws & Ews & Hlen & Hin).
  destruct ws as [|w1 [|w2 [|w3 [|w4 [|w5 [|? ?]]]]]]; try discriminate.
  pose proof (unit_stream_advance sin random 5 _ Hg1) as Hg6.
  pose proof (unit_stream_advance sin random 1 _ Hg6) as Hg7.
  eexists. exists (advance sin 1 (advance sin 5 (next_state sin g))).
  split; [|split; [|exact Hg7]].
  - exists w1, w2, w3, w4, w5,
      (comma_drawn (next_value sin random (advance sin 5 (next_state sin g)))).
    split; [exact Hin | reflexivity].
  - unfold bind. rewrite Hwps, (resolve_five g Hg).
    rewrite (generateWords_eq sin random DICTIONARY (of_Z 5) 5 _ eq_refl).
    fold (drawn_words sin random DICTIONARY 5 (next_state sin g)).
    rewrite Ews. cbn [map List.length].
    rewrite sentence_of_five. unfold ret. cbn [Spec.advance].
    f_equal. f_equal. f_equal.
    rewrite !append_assoc. reflexivity.
Qed.

Lemma five_word_iterate (this : TpLorem) (n : nat) :
  wordsPerSentence this = Str "5-5" ->
  forall (sentences : string) (g : NumberGenerator),
    unit_stream g ->
    exists ss g',
      List.length ss = n
      /\ Forall five_word_sentence ss
      /\ iterate n (sentence_body this) sentences g
         = Some (sentences ++ concat_strings (map (fun s => s ++ " ") ss), g')
      /\ unit_stream g'.
Proof.
  intros Hwps. induction n as [|n IH]; intros sentences g Hg.
  - exists [], g. repeat split; [constructor | | exact Hg].
    simpl. unfold ret. now rewrite append_empty_r.
  - destruct (five_word_body this sentences g Hwps Hg) as (s & g1 & Hs & Hbody & Hg1).
    destruct (IH (sentences ++ s ++ " ") g1 Hg1) as (ss & g' & Hlen & Hss & Hit & Hg').
    exists (s :: ss), g'. repeat split.
    + simpl. now rewrite Hlen.
    + now constructor.
    + cbn [iterate]. unfold bind at 1. rewrite Hbody, Hit.
      f_equal. f_equal. cbn [map concat_strings fold_right].
      now rewrite !append_assoc.
    + exact Hg'.
Qed.

Lemma five_word_sentence_shape (s : string) :
  five_word_sentence s ->
  (exists c rest, s = String c rest /\ is_space c = false)
  /\ (exists y, s = y ++ ".")
  /\ starts_upper s = true.
Proof.
  intros (w1 & w2 & w3 & w4 & w5 & comma & Hin & ->).
  inversion Hin as [|? ? H1 _]; subst.
  rewrite Forall_forall in DICTIONARY_lowercase.
  specialize (DICTIONARY_lowercase w1 H1).
  pose proof (capitalize_starts_upper w1 DICTIONARY_lowercase) as Hup.
  destruct (capitalize w1) as [|c rest] eqn:E; [discriminate|].
  split; [|split].
  - exists c, (rest ++ separator comma ++ w2 ++ " " ++ w3 ++ " " ++ w4 ++ " " ++ w5 ++ ".").
    split; [reflexivity|]. simpl in Hup. apply upper_code in Hup.
    unfold is_space. apply orb_false_iff. split.
    + apply andb_false_iff. right. apply Nat.leb_gt. lia.
    + apply Nat.eqb_neq. lia.
  - exists (String c rest ++ separator comma ++ w2 ++ " " ++ w3 ++ " " ++ w4 ++ " " ++ w5).
    now rewrite !append_assoc.
  - exact Hup.
Qed.

(** Trimming the sentences, each followed by a space, leaves them joined by
    single spaces. *)
Lemma trim_sentences (ss : list string) :
  Forall five_word_sentence ss ->
  trim (concat_strings (map (fun s => s ++ " ") ss)) = join " " ss.
Proof.
  intros Hss. destruct ss as [|s ss]; [reflexivity|].
  rewrite concat_with_spaces. unfold trim.
  assert (Hlast : exists y, join " " (s :: ss) = y ++ ".").
  { apply (join_last " " (s :: ss) EmptyString "."); [discriminate|].
    apply Forall_impl with (2 := Hss). intros x Hx.
    now destruct (five_word_sentence_shape x Hx) as (_ & Hy & _). }
  assert (Hfirst : exists c rest, join " " (s :: ss) = String c rest /\ is_space c = false).
  { inversion Hss as [|? ? Hs _]; subst.
    destruct (five_word_sentence_shape s Hs) as ((c & rest & -> & Hc) & _ & _).
    destruct ss as [|s' ss].
    - now exists c, rest.
    - exists c, (rest ++ " " ++ join " " (s' :: ss)). now split. }
  destruct Hfirst as (c & rest & E & Hc). rewrite E.
  change (String c rest ++ " ") with (String c (rest ++ " ")).
  rewrite (trimStart_char c _ Hc).
  change (String c (rest ++ " ")) with (String c rest ++ " ").
  rewrite trimEnd_app_space, <- E.
  destruct Hlast as [y ->]. now apply trimEnd_app_char.
Qed.


End FiveWords.


(** ** Definition lists *)

Section DefinitionList.

Variable sin : number -> number.
Variable random : nat -> number.
Variable parseFloat : string -> number.
Variable DICTIONARY : list string.

Hypothesis DICTIONARY_nonempty : DICTIONARY <> [].

Local Abbreviation unit_stream := (unit_stream sin random).
Local Abbreviation getNumberWithinRange := (getNumberWithinRange sin random).
Local Abbreviation generateWords := (generateWords sin random DICTIONARY).
Local Abbreviation generateTitle := (generateTitle sin random DICTIONARY).
Local Abbreviation definition_items := (definition_items sin random DICTIONARY).

(** The body of the loop of [generateList]. *)
Local Abbreviation item_body this :=
  (fun items : string =>
     numWords <- getNumberWithinRange (wordsPerSentence this) ;;
     words <- generateWords numWords ;;
     let item := join_words words in
     if String.eqb (type this) "dl" then
       title <- generateTitle this ;;
       ret (items ++ "<dt>" ++ title ++ "</dt><dd>" ++ capitalize item ++ "</dd>")
     else
       ret (items ++ "<li>" ++ capitalize item ++ "</li>")).

Lemma definition_body (this : TpLorem) (items : string) (g : NumberGenerator) :
  type this = "dl" ->
  finite_size (length this) = true ->
  finite_size (wordsPerSentence this) = true ->
  unit_stream g ->
  exists term description g1 g',
    word_run sin random DICTIONARY (wordsPerSentence this) g description g1
    /\ title_rule sin random DICTIONARY (length this) g1 term g'
    /\ item_body this items g
       = Some (items ++ definition_pair (term, description), g')
    /\ unit_stream g'.
Proof.
  intros Htype Hlen Hwps Hg.
  destruct (resolve_and_draw sin random DICTIONARY DICTIONARY_nonempty
              (wordsPerSentence this) g Hwps Hg)
    as (numWords & g0 & ws & g1 & Hres & Hdraw & Hspec & Hg1).
  destruct (generateTitle_unit sin random DICTIONARY DICTIONARY_nonempty
              this g1 Hlen Hg1)
    as (term & g' & Htitle & Hrule & Hg').
  exists term, (capitalize (join " " ws)), g1, g'.
  split; [exists ws; split; [exact Hspec | reflexivity]|].
  split; [exact Hrule|]. split; [|exact Hg'].
  unfold bind. rewrite Hres, Hdraw, Htype.
  cbn [String.eqb Ascii.eqb Bool.eqb]. cbv iota.
  rewrite Htitle. now rewrite join_words_defined.
Qed.

Lemma definition_iterate (this : TpLorem) (n : nat) :
  type this = "dl" ->
  finite_size (length this) = true ->
  finite_size (wordsPerSentence this) = true ->
  forall (items : string) (g : NumberGenerator),
    unit_stream g ->
    exists pairs g',
      definition_items this n g pairs g'
      /\ List.length pairs = n
      /\ iterate n (item_body this) items g
         = Some (items ++ concat_strings (map definition_pair pairs), g')
      /\ unit_stream g'.
Proof.
  intros Htype Hlen Hwps. induction n as [|n IH]; intros items g Hg.
  - exists [], g. repeat split; [constructor | | exact Hg].
    simpl. unfold ret. now rewrite append_empty_r.
  - destruct (definition_body this items g Htype Hlen Hwps Hg)
      as (term & description & g1 & g2 & Hrun & Hrule & Hbody & Hg2).
    destruct (IH (items ++ definition_pair (term, description)) g2 Hg2)
      as (pairs & g' & Hitems & Hcount & Hit & Hg').
    exists ((term, description) :: pairs), g'. repeat split.
    + now apply items_next with g1 g2.
    + simpl. now rewrite Hcount.
    + cbn [iterate]. unfold bind at 1. cbv beta zeta in Hbody, Hit |- *.
      rewrite Hbody, Hit.
      f_equal. f_equal. cbn [map concat_strings fold_right].
      now rewrite !append_assoc.
    + exact Hg'.
Qed.

Lemma includes_app (c : ascii) (a b : string) :
  includes c (a ++ b) = includes c a || includes c b.
Proof.
  induction a as [|x a IH]; [reflexivity|]. simpl.
  now rewrite IH, orb_assoc.
Qed.

Lemma includes_join (c : ascii) (ws : list string) :
  Ascii.eqb " " c = false ->
  Forall (fun w => includes c w = false) ws ->
  includes c (join " " ws) = false.
Proof.
  intros Hc. induction ws as [|w ws IH]; [reflexivity|].
  intros H. inversion H as [|? ? Hw Hws]; subst.
  destruct ws as [|w' ws]; [exact Hw|].
  change (join " " (w :: w' :: ws)) with (w ++ " " ++ join " " (w' :: ws)).
  rewrite includes_app, Hw.
  change (" " ++ join " " (w' :: ws)) with (String " " (join " " (w' :: ws))).
  cbn [includes]. now rewrite Hc, (IH Hws).
Qed.

Lemma includes_capitalize_any (c : ascii) (s : string) :
  not_a_letter c -> includes c s = false -> includes c (capitalize s) = false.
Proof.
  intros Hc. destruct s as [|a s]; [reflexivity|]. simpl.
  intros H. apply orb_false_iff in H. destruct H as [Ha Hs].
  rewrite Hs, orb_false_r. unfold toUpperCase_char.
  destruct ((97 <=? nat_of_ascii a)%nat && (nat_of_ascii a <=? 122)%nat) eqn:E;
    [|exact Ha].
  apply Ascii.eqb_neq. intros <-.
  apply andb_true_iff in E. destruct E as [E1 E2].
  apply Nat.leb_le in E1, E2.
  unfold not_a_letter in Hc. rewrite nat_ascii_embedding in Hc by lia. lia.
Qed.

(** A word run over lower-case words has neither commas nor periods. *)
Lemma word_run_plain (len : size) (g g' : NumberGenerator) (text : string) :
  Forall (fun w => lowercase_word w = true) DICTIONARY ->
  word_run sin random DICTIONARY len g text g' ->
  includes "," text = false /\ includes "." text = false.
Proof.
  intros Hlow (ws & (_ & _ & _ & _ & _ & _ & Hin & _) & ->).
  rewrite Forall_forall in Hlow, Hin.
  split; apply includes_capitalize_any;
    try apply comma_not_a_letter; try apply period_not_a_letter;
    (apply includes_join; [reflexivity|]);
    apply Forall_forall; intros w Hw;
    apply includes_lowercase_word;
    try apply comma_not_a_letter; try apply period_not_a_letter;
    apply Hlow, Hin, Hw.
Qed.

Lemma definition_items_plain (this : TpLorem) (n : nat)
    (g g' : NumberGenerator) (pairs : list (string * string)) :
  Forall (fun w => lowercase_word w = true) DICTIONARY ->
  definition_items this n g pairs g' ->
  Forall (fun p => includes "," (snd p) = false /\ includes "." (snd p) = false)
         pairs.
Proof.
  intros Hlow H. induction H as [|n g g1 g2 g3 term description pairs Hrun _ _ IH].
  - constructor.
  - constructor; [|exact IH]. exact (word_run_plain _ _ _ _ Hlow Hrun).
Qed.


End DefinitionList.


(** ** When the generator keeps the contract of [next()] *)

Section Contract.

Variable sin : number -> number.
Variable random : nat -> number.

(** The unseeded generator keeps it when [Math.random] does. *)
Lemma unit_stream_unseeded :
  (forall k, in_unit (random k)) ->
  forall calls, unit_stream sin random (Unseeded calls).
Proof.
  intros H calls n. revert calls.
  induction n as [|n IH]; intros calls; [apply H|]. apply (IH (S calls)).
Qed.

Lemma fractional_part_in_unit (q : Q) :
  in_unit (sub (Fin q) (floor (Fin q))).
Proof.
  unfold sub, floor, neg, add, of_Z, in_unit.
  pose proof (Qfloor_le q) as Hle. pose proof (Qlt_floor q) as Hlt.
  rewrite inject_Z_plus in Hlt.
  set (k := Qfloor q) in *.
  split; rewrite Qred_correct;
    destruct q as [a b]; unfold Qle, Qlt, Qplus, Qopp, inject_Z in *;
    cbn [Qnum Qden] in *; nia.
Qed.

(** In the exact arithmetic of this development the seeded generator keeps
    it when [Math.sin] returns finite values.  The platform rounds the
    difference [x - floor(x)], and for a small sine below 0 it rounds to 1:
    there the contract holds for a sine that is not negative. *)
Lemma unit_stream_seeded :
  (forall x, is_finite (sin x) = true) ->
  forall seed, unit_stream sin random (Seeded seed).
Proof.
  intros H seed n. revert seed.
  induction n as [|n IH]; intros seed.
  - unfold nth_draw. cbn [Spec.advance Spec.next_value seeded_step fst].
    specialize (H seed). destruct (sin seed) as [| | |a]; try discriminate.
    apply fractional_part_in_unit.
  - apply (IH (snd (seeded_step sin seed))).
Qed.

End Contract.

(** ** The properties evaluated on sample runs *)

Lemma sample_words_lowercase :
  Forall (fun w => lowercase_word w = true) Sample.words.
Proof.
  repeat constructor.
Qed.

Lemma sample_words_nonempty : Sample.words <> [].
Proof.
  discriminate.
Qed.

Lemma sample_stream_unit (calls : nat) :
  unit_stream Sample.sin_id Sample.random_sevenths (Unseeded calls).
Proof.
  apply unit_stream_unseeded. exact in_unit_sevenths.
Qed.

(** [sentencesPerParagraph] is never read: changing it changes nothing. *)
Lemma sentencesPerParagraph_is_not_read
    (sin : number -> number) (random : nat -> number)
    (parseFloat : string -> number) (DICTIONARY : list string)
    (p : size) (this : TpLorem) :
  generateContent sin random parseFloat DICTIONARY
    (with_sentencesPerParagraph p this)
  = generateContent sin random parseFloat DICTIONARY this.
Proof.
  reflexivity.
Qed.

(** C1.  A run of type [paragraph] with
    [length = "2-2"] and [sentencesPerParagraph = "1-1"], evaluated with
    [Math.random] returning 0: there are two paragraphs, and each holds two
    sentences, the number that [length] resolves to, not the one that
    [sentencesPerParagraph] asks for. *)
Theorem paragraph_sentences_follow_length
    (sin : number -> number) (parseFloat : string -> number) :
  let this :=
    with_length (Str "2-2") (with_sentencesPerParagraph (Str "1-1") defaults) in
  let output :=
    "<p>Lorem lorem lorem lorem. Lorem lorem lorem lorem.</p><p>Lorem lorem lorem lorem. Lorem lorem lorem lorem.</p>" in
  type this = "paragraph"
  /\ generateContent sin Sample.random_zero parseFloat Sample.words this
     = Some output
  /\ count_substring "<p>" output = 2%nat
  /\ count_char "." output = 4%nat.
Proof.
  repeat split.
Qed.

(** C4.  A sentence of five words evaluated with [Math.random] returning 0:
    the comma draw for the second word succeeds, and the text gets the comma
    and its space in addition to the plain space, so two spaces follow the
    comma.  The draw succeeds when it falls below 1/11, not 1/10: the draw
    2/21 lies below 1/10 and inserts no comma, and of the 110 draws
    [0/110 .. 109/110] exactly 10 insert one. *)
Theorem comma_is_added_to_the_space
    (sin : number -> number) (parseFloat : string -> number) :
  let this :=
    with_type "sentence"
      (with_length (Num (of_Z 1)) (with_wordsPerSentence (Str "5-5") defaults)) in
  generateContent sin Sample.random_zero parseFloat Sample.words this
  = Some "Lorem,  lorem lorem lorem lorem."
  /\ (in_unit (Fin (2 # 21)) /\ (2 # 21 < 1 # 10)%Q
      /\ comma_drawn (Fin (2 # 21)) = false)
  /\ List.length
       (filter comma_drawn (map (fun k => Fin (Z.of_nat k # 110)) (seq 0 110)))
     = 10%nat.
Proof.
  repeat split; try reflexivity; unfold Qle; simpl; lia.
Qed.



Lemma title_of_three_words_witness :
  let this := with_type "title" (with_length (Num (of_Z 3)) defaults) in
  exists (i1 i2 i3 : nat) (w1 w2 w3 : string),
    let g := install_generator Sample.parseFloat_nan this in
    let output := capitalize w1 ++ " " ++ capitalize w2 ++ " " ++ capitalize w3 in
    generateContent Sample.sin_id Sample.random_sevenths Sample.parseFloat_nan
      Sample.words this = Some output
    /\ split " " output = [capitalize w1; capitalize w2; capitalize w3]
    /\ Forall (fun w => starts_upper w = true)
              [capitalize w1; capitalize w2; capitalize w3]
    /\ Forall (fun i => (i < List.length Sample.words)%nat) [i1; i2; i3]
    /\ word_index Sample.words
         (nth_draw Sample.sin_id Sample.random_sevenths 0 g) = of_nat i1
    /\ word_index Sample.words
         (nth_draw Sample.sin_id Sample.random_sevenths 1 g) = of_nat i2
    /\ word_index Sample.words
         (nth_draw Sample.sin_id Sample.random_sevenths 2 g) = of_nat i3
    /\ nth_error Sample.words i1 = Some w1
    /\ nth_error Sample.words i2 = Some w2
    /\ nth_error Sample.words i3 = Some w3.
Proof.
  intros this.
  apply (title_of_three_words
           Sample.sin_id Sample.random_sevenths Sample.parseFloat_nan Sample.words
           sample_words_nonempty sample_words_lowercase this
           eq_refl (or_introl eq_refl) (sample_stream_unit 0)).
Defined.

(** C7, as stated, fails on a generator that leaves [[0, 1)]: seeded with
    [NaN] it returns [NaN] at every call, the dictionary has no word at the
    index [NaN], and capitalizing the first of the three undefined words
    throws, over the same dictionary of lower-case words. *)
Lemma title_of_NaN_seed_throws :
  let this :=
    with_seed (SeedNumber NaN)
      (with_type "title" (with_length (Num (of_Z 3)) defaults)) in
  let g := install_generator Sample.parseFloat_nan this in
  type this = "title"
  /\ length this = Num (of_Z 3)
  /\ Sample.words <> []
  /\ Forall (fun w => lowercase_word w = true) Sample.words
  /\ Sample.sin_id NaN = NaN
  /\ nth_draw Sample.sin_id Sample.random_sevenths 0 g = NaN
  /\ ~ in_unit (nth_draw Sample.sin_id Sample.random_sevenths 0 g)
  /\ generateWords Sample.sin_id Sample.random_sevenths Sample.words (of_Z 3) g
     = Some ([None; None; None], g)
  /\ generateContent Sample.sin_id Sample.random_sevenths Sample.parseFloat_nan
       Sample.words this
     = None.
Proof.
  repeat split; try reflexivity.
  - discriminate.
  - exact sample_words_lowercase.
  - intros H. exact H.
Qed.



Lemma seed_zero_is_a_fixed_point_witness :
  Sample.sin_id zero = zero
  /\ nth_draw Sample.sin_id Sample.random_sevenths 5 (Seeded zero) = zero
  /\ getNumberWithinRange Sample.sin_id Sample.random_sevenths
       (range_spec 3 5) (Seeded zero)
     = Some (of_Z 3, Seeded zero)
  /\ generateWords Sample.sin_id Sample.random_sevenths Sample.words
       (of_Z 2) (Seeded zero)
     = Some ([Some "lorem"; Some "lorem"], Seeded zero).
Proof.
  destruct (seed_zero_is_a_fixed_point
              Sample.sin_id Sample.random_sevenths Sample.words eq_refl
              Sample.parseFloat_nan defaults)
    as (_ & Hdraw & _ & Hrange & Hwords).
  split; [reflexivity|].
  split; [exact (proj1 (Hdraw 5%nat))|].
  split; [apply (Hrange 3%N 5%N); unfold MAX_SAFE_INTEGER; lia|].
  exact (proj2 (Hwords (of_Z 2) 2%nat eq_refl)).
Defined.

(** C10, as stated, fails on a range with an infinite bound: with the seed 0
    the range [0-Infinity] resolves to [NaN], the product of the draw 0 with
    the infinite width, and not to its lower bound 0. *)
Lemma seed_zero_infinite_range_gives_NaN :
  Sample.sin_id zero = zero
  /\ includes "-" "0-Infinity" = true
  /\ range_min "0-Infinity" = zero
  /\ range_max "0-Infinity" = PosInf
  /\ getNumberWithinRange Sample.sin_id Sample.random_sevenths
       (Str "0-Infinity")
       (install_generator Sample.parseFloat_nan
          (with_seed (SeedNumber zero) defaults))
     = Some (NaN, Seeded zero)
  /\ NaN <> zero.
Proof.
  repeat split; try reflexivity. discriminate.
Qed.


(** ** [clamp], [clampRandom] and [randomInteger] *)

Section ClampFacts.

Lemma lt_true_le (x y : number) : lt x y = true -> le_num x y.
Proof.
  destruct x as [| | |p], y as [| | |q]; simpl; try discriminate; auto.
  destruct (Qcompare_spec p q) as [E|L|G]; try discriminate.
  intros _. now apply Qlt_le_weak.
Qed.

Lemma lt_false_le (x y : number) :
  x <> NaN -> y <> NaN -> lt x y = false -> le_num y x.
Proof.
  destruct x as [| | |p], y as [| | |q]; simpl; try discriminate; auto;
    try congruence.
  intros _ _. destruct (Qcompare_spec p q) as [E|L|G]; try discriminate; intros _.
  - rewrite E. apply Qle_refl.
  - now apply Qlt_le_weak.
Qed.

Lemma le_num_not_lt (x y : number) : le_num x y -> lt y x = false.
Proof.
  destruct x as [| | |p], y as [| | |q]; simpl; try contradiction; auto.
  intros H. destruct (Qcompare_spec q p) as [E|L|G]; try reflexivity.
  exfalso. apply (Qlt_irrefl p). now apply Qle_lt_trans with q.
Qed.

Lemma le_num_refl (x : number) : x <> NaN -> le_num x x.
Proof.
  destruct x; simpl; auto; try congruence. intros _. apply Qle_refl.
Qed.

Lemma le_num_defined (x y : number) : le_num x y -> x <> NaN /\ y <> NaN.
Proof.
  destruct x, y; simpl; try contradiction; split; discriminate.
Qed.

Lemma clamp_bounds (value min max : number) :
  value <> NaN -> le_num min max ->
  le_num min (MathsUtil.clamp value min max)
  /\ le_num (MathsUtil.clamp value min max) max.
Proof.
  intros Hv Hle. destruct (le_num_defined _ _ Hle) as [Hmin Hmax].
  unfold MathsUtil.clamp.
  destruct (lt value min) eqn:E1.
  - split; [now apply le_num_refl | exact Hle].
  - destruct (lt max value) eqn:E2.
    + split; [exact Hle | now apply le_num_refl].
    + split; now apply lt_false_le.
Qed.

(** X1.  On bounds [min <= max], [clamp] returns a number between [min] and
    [max] for every value that is not [NaN], the infinities included. *)
Theorem clamp_within (value min max : number) :
  value <> NaN -> le_num min max ->
  le_num min (MathsUtil.clamp value min max)
  /\ le_num (MathsUtil.clamp value min max) max.
Proof.
  exact (clamp_bounds value min max).
Qed.

(** X2.  On bounds [min <= max], [clamp] returns a value that lies between
    them as it is, and so clamping twice is clamping once; [NaN] goes through
    unchanged. *)
Theorem clamp_fixes_its_range (value min max : number) :
  le_num min max ->
  (le_num min value -> le_num value max ->
   MathsUtil.clamp value min max = value)
  /\ MathsUtil.clamp (MathsUtil.clamp value min max) min max
     = MathsUtil.clamp value min max
  /\ MathsUtil.clamp NaN min max = NaN.
Proof.
  intros Hle.
  assert (Fix : forall v, le_num min v -> le_num v max ->
                          MathsUtil.clamp v min max = v).
  { intros v H1 H2. unfold MathsUtil.clamp.
    now rewrite (le_num_not_lt _ _ H1), (le_num_not_lt _ _ H2). }
  assert (N : MathsUtil.clamp NaN min max = NaN)
    by (destruct min, max; reflexivity).
  split; [exact (Fix value)|]. split; [|exact N].
  destruct value as [| | |q] eqn:E; [now rewrite N|..];
    rewrite <- E;
    (destruct (clamp_bounds value min max ltac:(rewrite E; discriminate) Hle)
      as [H1 H2]);
    now apply Fix.
Qed.

(** A rational between an integer and its successor has that integer as
    its floor. *)
Lemma Qfloor_between (x : Q) (k : Z) :
  (inject_Z k <= x)%Q -> (x < inject_Z (k + 1))%Q -> Qfloor x = k.
Proof.
  intros H1 H2.
  pose proof (Qfloor_resp_le _ _ H1) as A. rewrite Qfloor_Z in A.
  pose proof (Qfloor_le x) as B.
  assert (C : (inject_Z (Qfloor x) < inject_Z (k + 1))%Q)
    by (now apply Qle_lt_trans with x).
  rewrite <- Zlt_Qlt in C. lia.
Qed.

Lemma middle_of_cell (v : Q) (k m : Z) :
  (inject_Z k + (1 # 4) <= v * inject_Z m)%Q ->
  (v * inject_Z m <= inject_Z k + (3 # 4))%Q ->
  Qfloor (v * inject_Z m) = k.
Proof.
  intros H1 H2. apply Qfloor_between.
  - apply Qle_trans with (inject_Z k + (1 # 4))%Q; [|exact H1].
    rewrite <- (Qplus_0_r (inject_Z k)) at 1.
    apply Qplus_le_r. discriminate.
  - apply Qle_lt_trans with (inject_Z k + (3 # 4))%Q; [exact H2|].
    rewrite inject_Z_plus. apply Qplus_lt_r. reflexivity.
Qed.

(** Every cell of a range of at most [2 ^ 49 + 1] integers holds, in its
    middle half, a draw with 52 binary digits. *)
Lemma dyadic_draw (k m : Z) :
  (0 <= k < m)%Z -> (m <= 2 ^ 49 + 1)%Z ->
  exists j : Z,
    (0 <= j < 2 ^ 52)%Z
    /\ (inject_Z k + (1 # 4) <= (j # 2 ^ 52) * inject_Z m)%Q
    /\ ((j # 2 ^ 52) * inject_Z m <= inject_Z k + (3 # 4))%Q.
Proof.
  intros Hk Hm.
  set (A := ((4 * k + 1) * 2 ^ 50)%Z).
  exists ((A + m - 1) / m)%Z.
  assert (Hpos : (0 < m)%Z) by lia.
  pose proof (Z.mul_div_le (A + m - 1) m Hpos) as L.
  pose proof (Z.mul_succ_div_gt (A + m - 1) m Hpos) as G.
  set (j := ((A + m - 1) / m)%Z) in *.
  assert (HA : A = ((4 * k + 1) * 1125899906842624)%Z) by reflexivity.
  change (2 ^ 49)%Z with 562949953421312%Z in Hm.
  change (2 ^ 52)%Z with 4503599627370496%Z.
  change (2 ^ 52)%positive with 4503599627370496%positive.
  split; [|split].
  - split; [apply Z.div_pos; lia|]. nia.
  - unfold Qle, Qplus, Qmult, inject_Z. cbn [Qnum Qden]. nia.
  - unfold Qle, Qplus, Qmult, inject_Z. cbn [Qnum Qden]. nia.
Qed.

Lemma small_range_width (min max : Z) :
  small_integer min -> small_integer max -> (max - min + 1 <= 2 ^ 49 + 1)%Z.
Proof.
  unfold small_integer.
  change (2 ^ 48)%Z with 281474976710656%Z.
  change (2 ^ 49)%Z with 562949953421312%Z. lia.
Qed.

(** X3.  On bounds [min <= max] that are integers of at most 48 bits,
    [clampRandom] reaches every integer [n] of the range, both ends
    included: the draws [v] for which [v * (max - min + 1)] lies between
    [n - min + 1/4] and [n - min + 3/4] all give [n], and one of them has the
    form [j / 2 ^ 52], a number of the platform in [[0, 1)].  On draws of
    [[0, 1)] the result grows with the draw and stays in the range.  The
    middle half of each cell is what the platform's rounded product leaves
    certain: at the ends of a cell it can give the neighbouring integer. *)
Theorem clampRandom_reaches_every_integer (min max n : Z) :
  small_integer min -> small_integer max -> (min <= n <= max)%Z ->
  (forall v : Q,
     (inject_Z (n - min) + (1 # 4) <= v * inject_Z (max - min + 1))%Q ->
     (v * inject_Z (max - min + 1) <= inject_Z (n - min) + (3 # 4))%Q ->
     clampRandom (Fin v) (of_Z min) (of_Z max) = of_Z n)
  /\ (exists j : Z,
        (0 <= j < 2 ^ 52)%Z
        /\ clampRandom (Fin (j # 2 ^ 52)) (of_Z min) (of_Z max) = of_Z n)
  /\ forall v1 v2 : Q,
       in_unit (Fin v1) -> in_unit (Fin v2) -> (v1 <= v2)%Q ->
       exists n1 n2 : Z,
         clampRandom (Fin v1) (of_Z min) (of_Z max) = of_Z n1
         /\ clampRandom (Fin v2) (of_Z min) (of_Z max) = of_Z n2
         /\ (min <= n1)%Z /\ (n1 <= n2)%Z /\ (n2 <= max)%Z.
Proof.
  intros Smin Smax Hn.
  assert (Cell : forall v : Q,
            (inject_Z (n - min) + (1 # 4) <= v * inject_Z (max - min + 1))%Q ->
            (v * inject_Z (max - min + 1) <= inject_Z (n - min) + (3 # 4))%Q ->
            clampRandom (Fin v) (of_Z min) (of_Z max) = of_Z n).
  { intros v H1 H2. rewrite clampRandom_of_Z.
    rewrite (middle_of_cell v (n - min) (max - min + 1) H1 H2).
    f_equal. lia. }
  split; [exact Cell|]. split.
  - destruct (dyadic_draw (n - min) (max - min + 1) ltac:(lia)
                (small_range_width min max Smin Smax))
      as (j & Hj & H1 & H2).
    exists j. split; [exact Hj|]. now apply Cell.
  - intros v1 v2 [A1 B1] [A2 B2] Hv. rewrite !clampRandom_of_Z.
    eexists. eexists. split; [reflexivity|]. split; [reflexivity|].
    pose proof (Qfloor_unit_scaled v1 (max - min + 1) A1 B1 ltac:(lia)) as U1.
    pose proof (Qfloor_unit_scaled v2 (max - min + 1) A2 B2 ltac:(lia)) as U2.
    split; [lia|]. split; [|lia].
    apply Z.add_le_mono_r. apply Qfloor_resp_le.
    apply Qmult_le_compat_r; [exact Hv|].
    change 0%Q with (inject_Z 0). rewrite <- Zle_Qle. lia.
Qed.

(** X4.  On an inverted range of integers of at most 48 bits, [max < min],
    a draw of [[0, 1)] gives an integer from [max + 1] to [min]: never below
    [max + 1], and [min] itself at the draw 0. *)
Theorem clampRandom_inverted_range (v : number) (min max : Z) :
  small_integer min -> small_integer max ->
  in_unit v -> (max < min)%Z ->
  (exists n : Z,
     clampRandom v (of_Z min) (of_Z max) = of_Z n /\ (max + 1 <= n <= min)%Z)
  /\ clampRandom zero (of_Z min) (of_Z max) = of_Z min.
Proof.
  intros _ _ Hv Hlt. split.
  - destruct v as [| | |q]; simpl in Hv; try contradiction.
    destruct Hv as [H0 H1]. rewrite clampRandom_of_Z.
    set (k := (max - min + 1)%Z).
    assert (Hk : (k <= 0)%Z) by (unfold k; lia).
    assert (Hk' : (inject_Z k <= 0)%Q)
      by (change 0%Q with (inject_Z 0); rewrite <- Zle_Qle; exact Hk).
    eexists. split; [reflexivity|].
    assert (Hup : (Qfloor (q * inject_Z k) <= 0)%Z).
    { change 0%Z with (Qfloor 0). apply Qfloor_resp_le.
      destruct q as [a b]. unfold Qle, Qmult, inject_Z in *.
      cbn [Qnum Qden] in *. nia. }
    assert (Hlow : (k <= Qfloor (q * inject_Z k))%Z).
    { rewrite <- (Qfloor_Z k) at 1. apply Qfloor_resp_le.
      destruct q as [a b]. unfold Qle, Qlt, Qmult, inject_Z in *.
      cbn [Qnum Qden] in *. nia. }
    unfold k in *. lia.
  - change zero with (Fin (inject_Z 0)). now rewrite clampRandom_of_Z.
Qed.

(** X5.  For integers [min <= max] of at most 48 bits, negative ones
    included, and a value of [Math.random] in [[0, 1)], [randomInteger]
    returns an integer [n] with [min <= n <= max]. *)
Theorem randomInteger_within (random : number) (min max : Z) :
  small_integer min -> small_integer max ->
  in_unit random -> (min <= max)%Z ->
  exists n : Z,
    MathsUtil.randomInteger random (of_Z min) (of_Z max) = of_Z n
    /\ (min <= n <= max)%Z.
Proof.
  intros _ _ Hr Hle. exact (clampRandom_within random min max Hr Hle).
Qed.

(** A value between the bounds is returned as it is. *)
Lemma clamp_in_range (value min max : number) :
  le_num min value -> le_num value max ->
  MathsUtil.clamp value min max = value.
Proof.
  intros H1 H2. unfold MathsUtil.clamp.
  now rewrite (le_num_not_lt _ _ H1), (le_num_not_lt _ _ H2).
Qed.

End ClampFacts.


(** ** The seeded generator on finite and on undefined seeds *)

Section SeededValues.

Variable sin : number -> number.
Variable random : nat -> number.
Variable parseFloat : string -> number.
Variable DICTIONARY : list string.

Lemma seeded_step_finite (q : Q) :
  is_finite (sin (Fin q)) = true ->
  exists r, seeded_step sin (Fin q) = (Fin r, Fin r) /\ in_unit (Fin r).
Proof.
  intros H. unfold seeded_step.
  destruct (sin (Fin q)) as [| | |a]; try discriminate.
  pose proof (fractional_part_in_unit (Qred (a * inject_Z 10000))) as U.
  change (mul (Fin a) (of_Z 10000)) with (Fin (Qred (a * inject_Z 10000))).
  destruct (sub (Fin (Qred (a * inject_Z 10000)))
                (floor (Fin (Qred (a * inject_Z 10000))))) as [| | |r] eqn:E;
    try contradiction.
  now exists r.
Qed.

(** X6.  With [Math.sin] taking its values in [[-1, 1]], and none below
    0 on [[0, 1)], the generator seeded with a finite number returns only
    values of [[0, 1]], after every call its captured seed is the value
    just returned, and when the sine of the seed is not negative the values
    lie in [[0, 1)].  The upper end 1 is left out under that sign condition
    only: for a sine below 0 the platform can round the difference
    [x - floor(x)] to 1. *)
Theorem seeded_values_stay_in_unit :
  (forall q, le_num (of_Z (-1)) (sin (Fin q)) /\ le_num (sin (Fin q)) one) ->
  (forall x, in_unit x -> le_num zero (sin x)) ->
  forall (seed : Q) (n : nat),
    exists value : Q,
      nth_draw sin random n (Seeded (Fin seed)) = Fin value
      /\ advance sin (S n) (Seeded (Fin seed)) = Seeded (Fin value)
      /\ (0 <= value)%Q /\ (value <= 1)%Q
      /\ (le_num zero (sin (Fin seed)) -> (value < 1)%Q).
Proof.
  intros Hsin _ seed n.
  assert (H : forall q, is_finite (sin (Fin q)) = true).
  { intros q. destruct (Hsin q) as [H1 H2].
    destruct (sin (Fin q)); simpl in H1, H2; try contradiction; reflexivity. }
  assert (U : exists value : Q,
            nth_draw sin random n (Seeded (Fin seed)) = Fin value
            /\ in_unit (Fin value)
            /\ advance sin (S n) (Seeded (Fin seed)) = Seeded (Fin value)).
  { revert seed.
    induction n as [|n IH]; intros seed.
    - destruct (seeded_step_finite seed (H seed)) as (r & E & U).
      exists r. unfold nth_draw.
      cbn [Spec.advance Spec.next_value Spec.next_state]. rewrite E.
      repeat split; try assumption; apply U.
    - destruct (seeded_step_finite seed (H seed)) as (r & E & _).
      destruct (IH r) as (value & Hv & Hu & Hs).
      exists value. unfold nth_draw in *.
      cbn [Spec.advance Spec.next_state] in *. rewrite E. cbn [snd].
      repeat split; try assumption; apply Hu. }
  destruct U as (value & Hv & [H0 H1] & Hs).
  exists value. split; [exact Hv|]. split; [exact Hs|].
  split; [exact H0|]. split; [now apply Qlt_le_weak|]. intros _. exact H1.
Qed.

Hypothesis sin_NaN : sin NaN = NaN.

Lemma seeded_step_NaN : seeded_step sin NaN = (NaN, NaN).
Proof.
  unfold seeded_step. now rewrite sin_NaN.
Qed.

Lemma nth_draw_NaN (n : nat) : nth_draw sin random n (Seeded NaN) = NaN.
Proof.
  unfold nth_draw.
  assert (E : advance sin n (Seeded NaN) = Seeded NaN).
  { induction n as [|n IH]; [reflexivity|].
    cbn [Spec.advance Spec.next_state]. now rewrite seeded_step_NaN. }
  rewrite E. cbn [Spec.next_value]. now rewrite seeded_step_NaN.
Qed.

Lemma word_index_NaN : DICTIONARY_at DICTIONARY (word_index DICTIONARY NaN) = None.
Proof.
  unfold word_index, of_nat, one. rewrite sub_of_Z. reflexivity.
Qed.

(** X7.  With [Math.sin(NaN) = NaN], a run seeded with [NaN] draws [NaN] at
    every call.  No word is found at such an index, so a title whose
    [length] is a literal count of at least one word throws, and a title
    whose [length] is a range is empty. *)
Theorem NaN_seed_breaks_titles (this : TpLorem) (k : nat) (range : string) :
  let seeded := with_type "title" (with_seed (SeedNumber NaN) this) in
  (forall n, nth_draw sin random n (install_generator parseFloat seeded) = NaN)
  /\ generateContent sin random parseFloat DICTIONARY
       (with_length (Num (of_nat (S k))) seeded) = None
  /\ (includes "-" range = true ->
      generateContent sin random parseFloat DICTIONARY
        (with_length (Str range) seeded) = Some EmptyString).
Proof.
  intros seeded. split; [|split].
  - intros n. apply nth_draw_NaN.
  - unfold generateContent.
    change (install_generator parseFloat (with_length (Num (of_nat (S k))) seeded))
      with (Seeded NaN).
    cbn [type with_length with_type seeded String.eqb Ascii.eqb Bool.eqb].
    cbv iota. unfold generateTitle, bind.
    cbn [Lorem.length with_length].
    assert (R : getNumberWithinRange sin random (Num (of_nat (S k))) (Seeded NaN)
                = Some (of_nat (S k), Seeded NaN)).
    { cbn [Lorem.getNumberWithinRange ret]. unfold of_nat. now rewrite or_zero_of_Z. }
    rewrite R.
    rewrite (generateWords_eq sin random DICTIONARY _ (S k) _ (trip_count_of_nat (S k))).
    cbn [seq map]. rewrite nth_draw_NaN, word_index_NaN. reflexivity.
  - intros Hr. unfold generateContent.
    change (install_generator parseFloat (with_length (Str range) seeded))
      with (Seeded NaN).
    cbn [type with_length with_type seeded String.eqb Ascii.eqb Bool.eqb].
    cbv iota. unfold generateTitle, bind.
    cbn [Lorem.length with_length].
    rewrite (getNumberWithinRange_range sin random range _ Hr).
    cbn [Spec.next_value Spec.next_state]. rewrite seeded_step_NaN. cbn [fst snd].
    assert (C : clampRandom NaN (range_min range) (range_max range) = NaN).
    { unfold clampRandom. destruct (add (sub (range_max range) (range_min range)) one);
        destruct (range_min range); reflexivity. }
    rewrite C. reflexivity.
Qed.

End SeededValues.


(** ** More on words, lists, paragraphs and sentences *)

Section LoremMore.

Variable sin : number -> number.
Variable random : nat -> number.
Variable parseFloat : string -> number.
Variable DICTIONARY : list string.

Local Abbreviation unit_stream := (unit_stream sin random).
Local Abbreviation getNumberWithinRange := (getNumberWithinRange sin random).
Local Abbreviation generateWords := (generateWords sin random DICTIONARY).
Local Abbreviation generateSentences := (generateSentences sin random DICTIONARY).
Local Abbreviation sentence_loop := (sentence_loop sin random).
Local Abbreviation advance := (advance sin).


(** X10.  A [type] that is none of the six known ones gives the empty
    string, whatever the other properties are. *)
Theorem unknown_type_gives_empty_content (this : TpLorem) :
  ~ In (type this) ["title"; "sentence"; "paragraph"; "ol"; "ul"; "dl"] ->
  generateContent sin random parseFloat DICTIONARY this = Some EmptyString.
Proof.
  intros H. unfold generateContent.
  assert (E : forall t, In t ["title"; "sentence"; "paragraph"; "ol"; "ul"; "dl"] ->
                        String.eqb (type this) t = false).
  { intros t Ht. apply String.eqb_neq. intros Heq. apply H. now rewrite Heq. }
  rewrite !E by (simpl; tauto). reflexivity.
Qed.

(** X14.  Only the first two segments of a range are read: what follows a
    second [-] changes nothing. *)
Theorem range_reads_two_segments (s1 s2 rest : string) (g : NumberGenerator) :
  includes "-" s1 = false -> includes "-" s2 = false ->
  getNumberWithinRange (Str (s1 ++ "-" ++ s2 ++ "-" ++ rest)) g
  = getNumberWithinRange (Str (s1 ++ "-" ++ s2)) g.
Proof.
  intros H1 H2.
  rewrite !(getNumberWithinRange_range sin random)
    by (apply includes_app_separator).
  unfold range_min, range_max. cbn [String.append].
  rewrite !(split_first "-" s1) by exact H1.
  rewrite (split_first "-" s2) by exact H2.
  rewrite (split_whole "-" s2) by exact H2.
  reflexivity.
Qed.

(** From the second word on, a sentence of defined words draws one value at
    each position below [len - 3] and none after. *)
Lemma sentence_loop_defined (len : nat) (ws : list string) :
  forall (j : nat) (sentence : string) (g : NumberGenerator),
    (0 < j)%nat ->
    exists text,
      sentence_loop len j (map Some ws) sentence g
      = Some (text, advance (Nat.min (List.length ws) (len - 3 - j)) g)
      /\ ((len - 3 <= j)%nat ->
          text = sentence ++ concat_strings (map (fun w => " " ++ w) ws)).
Proof.
  induction ws as [|w ws IH]; intros j sentence g Hj.
  - exists sentence. split; [reflexivity|]. intros _. simpl.
    now rewrite append_empty_r.
  - cbn [map List.length].
    destruct (Z.ltb_spec (Z.of_nat j) (Z.of_nat len - 3)) as [L|G].
    + rewrite (sentence_loop_comma_draw sin random len j (Some w) (map Some ws)
                 sentence g Hj L).
      destruct (IH (S j)
                  ((if comma_drawn (next_value sin random g)
                    then sentence ++ ", " else sentence)
                   ++ " " ++ to_text (Some w))
                  (next_state sin g) ltac:(lia)) as (text & E & _).
      exists text. split; [|intros; lia].
      rewrite E. f_equal. f_equal.
      replace (Nat.min (S (List.length ws)) (len - 3 - j))
        with (S (Nat.min (List.length ws) (len - 3 - S j))) by lia.
      reflexivity.
    + rewrite (sentence_loop_no_draw sin random len j (Some w) (map Some ws)
                 sentence g Hj G).
      destruct (IH (S j) (sentence ++ " " ++ to_text (Some w)) g ltac:(lia))
        as (text & E & T).
      exists text. split.
      * rewrite E.
        replace (Nat.min (List.length ws) (len - 3 - S j)) with 0%nat by lia.
        replace (Nat.min (S (List.length ws)) (len - 3 - j)) with 0%nat by lia.
        reflexivity.
      * intros _. rewrite (T ltac:(lia)). cbn [map concat_strings fold_right to_text].
        now rewrite !append_assoc.
Qed.

(** X13.  A sentence of [len] defined words draws a comma value for the
    words at positions [1 .. len - 4] only, [len - 4] values in all; a
    sentence of at most four words draws none and is its words joined by
    single spaces, the first one capitalized. *)
Theorem sentence_comma_draws (w : string) (ws : list string) (g : NumberGenerator) :
  let len := S (List.length ws) in
  exists text,
    sentence_loop len 0 (map Some (w :: ws)) EmptyString g
    = Some (text, advance (len - 4) g)
    /\ ((len <= 4)%nat -> text = join " " (capitalize w :: ws)).
Proof.
  intros len. cbn [map]. rewrite sentence_loop_first.
  destruct (sentence_loop_defined len ws 1 (EmptyString ++ capitalize w) g
              ltac:(lia)) as (text & E & T).
  exists text. split.
  - rewrite E.
    replace (Nat.min (List.length ws) (len - 3 - 1)) with (len - 4)%nat
      by (unfold len; lia).
    reflexivity.
  - intros Hlen. rewrite (T ltac:(lia)). cbn [String.append].
    clear. generalize (capitalize w) as first.
    induction ws as [|x ws IH]; intros first.
    + simpl. apply append_empty_r.
    + change (join " " (first :: x :: ws)) with (first ++ " " ++ join " " (x :: ws)).
      rewrite <- (IH x). cbn [map concat_strings fold_right String.append].
      reflexivity.
Qed.

End LoremMore.


(** ** Lists and paragraphs *)

Section ListsAndParagraphs.

Variable sin : number -> number.
Variable random : nat -> number.
Variable parseFloat : string -> number.
Variable DICTIONARY : list string.

Hypothesis DICTIONARY_nonempty : DICTIONARY <> [].

Local Abbreviation unit_stream := (unit_stream sin random).
Local Abbreviation getNumberWithinRange := (getNumberWithinRange sin random).
Local Abbreviation generateWords := (generateWords sin random DICTIONARY).
Local Abbreviation generateTitle := (generateTitle sin random DICTIONARY).
Local Abbreviation generateSentences := (generateSentences sin random DICTIONARY).
Local Abbreviation list_items := (list_items sin random DICTIONARY).
Local Abbreviation paragraph_texts := (paragraph_texts sin random DICTIONARY).

(** The body of the loop of [generateList]. *)
Local Abbreviation list_body this :=
  (fun items : string =>
     numWords <- getNumberWithinRange (wordsPerSentence this) ;;
     words <- generateWords numWords ;;
     let item := join_words words in
     if String.eqb (type this) "dl" then
       title <- generateTitle this ;;
       ret (items ++ "<dt>" ++ title ++ "</dt><dd>" ++ capitalize item ++ "</dd>")
     else
       ret (items ++ "<li>" ++ capitalize item ++ "</li>")).

Lemma list_iterate (this : TpLorem) (n : nat) :
  String.eqb (type this) "dl" = false ->
  finite_size (wordsPerSentence this) = true ->
  forall (items : string) (g : NumberGenerator),
    unit_stream g ->
    exists texts g',
      list_items this n g texts g'
      /\ List.length texts = n
      /\ iterate n (list_body this) items g
         = Some (items ++ concat_strings (map list_item texts), g')
      /\ unit_stream g'.
Proof.
  intros Htype Hwps. induction n as [|n IH]; intros items g Hg.
  - exists [], g. repeat split; [constructor | | exact Hg].
    simpl. unfold ret. now rewrite append_empty_r.
  - destruct (resolve_and_draw sin random DICTIONARY DICTIONARY_nonempty
                (wordsPerSentence this) g Hwps Hg)
      as (numWords & g0 & ws & g1 & Hres & Hdraw & Hspec & Hg1).
    destruct (IH (items ++ list_item (capitalize (join " " ws))) g1 Hg1)
      as (texts & g' & Hitems & Hcount & Hit & Hg').
    exists (capitalize (join " " ws) :: texts), g'. repeat split.
    + apply list_items_next with g1; [|exact Hitems].
      exists ws. split; [exact Hspec | reflexivity].
    + simpl. now rewrite Hcount.
    + assert (Hbody : list_body this items g
                      = Some (items ++ list_item (capitalize (join " " ws)), g1)).
      { unfold bind. rewrite Hres, Hdraw, Htype.
        now rewrite join_words_defined. }
      cbn [iterate]. unfold bind at 1. cbv beta zeta in Hbody, Hit |- *.
      rewrite Hbody, Hit.
      f_equal. f_equal. cbn [map concat_strings fold_right].
      now rewrite !append_assoc.
    + exact Hg'.
Qed.


(** The sentence loop returns on defined words. *)
Lemma sentence_loop_returns (ws : list string) (g : NumberGenerator) :
  exists text k,
    sentence_loop sin random (List.length ws) 0 (map Some ws) EmptyString g
    = Some (text, Spec.advance sin k g).
Proof.
  destruct ws as [|w ws].
  - exists EmptyString, 0%nat. reflexivity.
  - destruct (sentence_loop_defined sin random (List.length (w :: ws)) ws 1
                (EmptyString ++ capitalize w) g ltac:(lia)) as (text & E & _).
    exists text. eexists. cbn [map]. rewrite sentence_loop_first. exact E.
Qed.

(** [generateSentences] returns on a generator whose values lie in
    [[0, 1)], for sizes with finite bounds. *)
Lemma generateSentences_returns (this : TpLorem) (g : NumberGenerator) :
  finite_size (length this) = true ->
  finite_size (wordsPerSentence this) = true ->
  unit_stream g ->
  exists text g',
    generateSentences this g = Some (text, g') /\ unit_stream g'.
Proof.
  intros Hlen Hwps Hg.
  assert (Hit : forall n sentences g0,
             unit_stream g0 ->
             exists out g',
               iterate n
                 (fun sentences : string =>
                    numWords <- getNumberWithinRange (wordsPerSentence this) ;;
                    words <- generateWords numWords ;;
                    sentence <- sentence_loop sin random (List.length words) 0
                                  words EmptyString ;;
                    ret (sentences ++ sentence ++ ". "))
                 sentences g0
               = Some (out, g')
               /\ unit_stream g').
  { induction n as [|n IH]; intros sentences g0 Hg0.
    - exists sentences, g0. split; [reflexivity | exact Hg0].
    - destruct (resolve_and_draw sin random DICTIONARY DICTIONARY_nonempty
                  (wordsPerSentence this) g0 Hwps Hg0)
        as (numWords & g1 & ws & g2 & Hres & Hdraw & _ & Hg2).
      destruct (sentence_loop_returns ws g2) as (text & k & Hloop).
      pose proof (unit_stream_advance sin random k g2 Hg2) as Hg3.
      destruct (IH (sentences ++ text ++ ". ") _ Hg3) as (out & g' & Hout & Hg').
      exists out, g'. split; [|exact Hg'].
      cbn [iterate]. unfold bind at 1.
      assert (Hbody :
                (numWords <- getNumberWithinRange (wordsPerSentence this) ;;
                 words <- generateWords numWords ;;
                 sentence <- sentence_loop sin random (List.length words) 0
                               words EmptyString ;;
                 ret (sentences ++ sentence ++ ". ")) g0
                = Some (sentences ++ text ++ ". ", Spec.advance sin k g2)).
      { unfold bind. rewrite Hres, Hdraw. now rewrite length_map, Hloop. }
      rewrite Hbody. exact Hout. }
  destruct (resolve_finite sin random (length this) g Hlen (Hg 0%nat))
    as (q & k & Hres).
  pose proof (unit_stream_advance sin random k g Hg) as Hg1.
  destruct (Hit (Z.to_nat (Qceiling q)) EmptyString _ Hg1) as (out & g' & Hout & Hg').
  exists (trim out), g'. split; [|exact Hg'].
  unfold Lorem.generateSentences, for_upto, bind in Hout |- *.
  rewrite Hres. cbn [trip_count]. now rewrite Hout.
Qed.


End ListsAndParagraphs.

Section EmptyDictionary.

Variable sin : number -> number.
Variable random : nat -> number.
Variable parseFloat : string -> number.

Lemma DICTIONARY_at_empty (index : number) : DICTIONARY_at [] index = None.
Proof.
  destruct index as [| | |q]; try reflexivity. simpl.
  destruct (Qeq_bool q (inject_Z (Qfloor q)) && (0 <=? Qfloor q)%Z);
    [|reflexivity].
  now destruct (Z.to_nat (Qfloor q)).
Qed.

Lemma generateWords_empty (length : number) (n : nat) (g : NumberGenerator) :
  trip_count length = Some n ->
  generateWords sin random [] length g
  = Some (repeat None n, Spec.advance sin n g).
Proof.
  intros Hn. rewrite (generateWords_eq sin random [] length n g Hn).
  f_equal. f_equal.
  transitivity (map (fun _ : nat => @None string) (seq 0 n)).
  - apply map_ext. intros k. apply DICTIONARY_at_empty.
  - now rewrite map_const, length_seq.
Qed.

(** X9.  With an empty dictionary every word drawn is [undefined], whatever
    the generator returns; a title, and a sentence, then throw as soon as
    they hold one word. *)
Theorem empty_dictionary_throws (this : TpLorem)
    (numWords : number) (g1 : NumberGenerator) (k : nat) :
  let g := install_generator parseFloat this in
  getNumberWithinRange sin random (length this) g = Some (numWords, g1) ->
  trip_count numWords = Some (S k) ->
  generateWords sin random [] numWords g1
  = Some (repeat None (S k), Spec.advance sin (S k) g1)
  /\ (type this = "title" ->
      generateContent sin random parseFloat [] this = None)
  /\ (type this = "sentence" ->
      forall (perSentence : number) (g2 : NumberGenerator) (m : nat),
        getNumberWithinRange sin random (wordsPerSentence this) g1
        = Some (perSentence, g2) ->
        trip_count perSentence = Some (S m) ->
        generateContent sin random parseFloat [] this = None).
Proof.
  intros g Hres Hn. split; [now apply generateWords_empty|]. split.
  - intros Htype. unfold generateContent. fold g. rewrite Htype.
    cbn [String.eqb Ascii.eqb Bool.eqb]. cbv iota.
    unfold generateTitle, bind. rewrite Hres.
    rewrite (generateWords_empty numWords (S k) g1 Hn). reflexivity.
  - intros Htype perSentence g2 m Hper Hm. unfold generateContent. fold g.
    rewrite Htype. cbn [String.eqb Ascii.eqb Bool.eqb]. cbv iota.
    unfold generateSentences, for_upto, bind. rewrite Hres, Hn.
    cbn [iterate]. unfold bind.
    rewrite Hper, (generateWords_empty perSentence (S m) g2 Hm).
    reflexivity.
Qed.

End EmptyDictionary.


(** ** [escapeHtml], [unescapeHtml] and [capitalize] *)

Section EscapeFacts.

Lemma escape_char_plain (c : ascii) :
  is_markup_char c = false -> Strings.escape_char c = String c EmptyString.
Proof.
  unfold is_markup_char, Strings.escape_char. intros H.
  repeat (apply orb_false_iff in H; destruct H as [H ?]).
  now repeat match goal with E : Ascii.eqb _ _ = false |- _ => rewrite E; clear E end.
Qed.

Lemma escape_char_markup (c : ascii) :
  is_markup_char c = true ->
  In (c, Strings.escape_char c)
     [("&"%char, "&amp;"); ("<"%char, "&lt;"); (">"%char, "&gt;");
      (quote, "&quot;"); ("'"%char, "&#039;")].
Proof.
  unfold is_markup_char, Strings.escape_char. intros H.
  destruct (Ascii.eqb c "&") eqn:E1.
  { apply Ascii.eqb_eq in E1. rewrite E1. simpl. auto. }
  destruct (Ascii.eqb c "<") eqn:E2.
  { apply Ascii.eqb_eq in E2. rewrite E2. simpl. auto. }
  destruct (Ascii.eqb c ">") eqn:E3.
  { apply Ascii.eqb_eq in E3. rewrite E3. simpl. auto. }
  destruct (Ascii.eqb c quote) eqn:E4.
  { apply Ascii.eqb_eq in E4. rewrite E4. simpl. auto 6. }
  destruct (Ascii.eqb c "'") eqn:E5.
  { apply Ascii.eqb_eq in E5. rewrite E5. simpl. auto 6. }
  discriminate.
Qed.

Lemma unescape_escaped_char (c : ascii) (rest : string) :
  Strings.unescape_from 0 (Strings.escape_char c ++ rest)
  = String c (Strings.unescape_from 0 rest).
Proof.
  destruct (is_markup_char c) eqn:E.
  - pose proof (escape_char_markup c E) as H. simpl in H.
    destruct H as [H|[H|[H|[H|[H|[]]]]]]; injection H as <- <-; reflexivity.
  - rewrite (escape_char_plain c E). cbn [String.append Strings.unescape_from].
    unfold is_markup_char in E.
    repeat (apply orb_false_iff in E; destruct E as [E ?]).
    now rewrite E.
Qed.

(** X16.  [unescapeHtml] undoes [escapeHtml]: every text comes back as it
    was. *)
Theorem unescapeHtml_undoes_escapeHtml (text : string) :
  Strings.unescapeHtml (Strings.escapeHtml text) = text.
Proof.
  unfold Strings.unescapeHtml.
  induction text as [|c text IH]; [reflexivity|].
  cbn [Strings.escapeHtml]. now rewrite unescape_escaped_char, IH.
Qed.

(** X15.  The text that [escapeHtml] returns holds none of [<], [>], the
    double quote and the apostrophe, and every character of the input that is
    none of the five special ones is kept as it is: a text without them is
    returned unchanged. *)
Theorem escapeHtml_leaves_no_markup (text : string) :
  (includes "<" (Strings.escapeHtml text) = false
   /\ includes ">" (Strings.escapeHtml text) = false
   /\ includes quote (Strings.escapeHtml text) = false
   /\ includes "'" (Strings.escapeHtml text) = false)
  /\ (all_chars (fun c => negb (is_markup_char c)) text = true ->
      Strings.escapeHtml text = text).
Proof.
  split.
  - induction text as [|c text IH]; [repeat split|].
    destruct IH as (I1 & I2 & I3 & I4).
    cbn [Strings.escapeHtml]. rewrite !includes_app, I1, I2, I3, I4, !orb_false_r.
    destruct (is_markup_char c) eqn:E.
    + pose proof (escape_char_markup c E) as H. simpl in H.
      destruct H as [H|[H|[H|[H|[H|[]]]]]]; injection H as <- <-;
        repeat split; reflexivity.
    + rewrite (escape_char_plain c E). cbn [includes]. rewrite !orb_false_r.
      unfold is_markup_char in E.
      repeat (apply orb_false_iff in E; destruct E as [E ?]).
      repeat split; assumption.
  - induction text as [|c text IH]; [reflexivity|].
    cbn [all_chars Strings.escapeHtml]. intros H.
    apply andb_true_iff in H. destruct H as [Hc Ht].
    apply negb_true_iff in Hc.
    now rewrite (escape_char_plain c Hc), (IH Ht).
Qed.

(** X17.  [escapeHtml] works character by character: the escape of two
    texts put together is their escapes put together, and the result is never
    shorter than the text. *)
Theorem escapeHtml_of_append (a b : string) :
  Strings.escapeHtml (a ++ b) = Strings.escapeHtml a ++ Strings.escapeHtml b
  /\ (String.length a <= String.length (Strings.escapeHtml a))%nat.
Proof.
  split.
  - induction a as [|c a IH]; [reflexivity|].
    cbn [String.append Strings.escapeHtml]. now rewrite IH, append_assoc.
  - induction a as [|c a IH]; [apply Nat.le_refl|].
    cbn [Strings.escapeHtml String.length].
    assert (L : forall x y, String.length (x ++ y)
                            = (String.length x + String.length y)%nat).
    { intros x y. induction x as [|d x IHx]; [reflexivity|].
      simpl. now rewrite IHx. }
    rewrite L.
    assert (1 <= String.length (Strings.escape_char c))%nat.
    { destruct (is_markup_char c) eqn:E.
      - pose proof (escape_char_markup c E) as H. simpl in H.
        destruct H as [H|[H|[H|[H|[H|[]]]]]]; injection H as _ <-; simpl; lia.
      - rewrite (escape_char_plain c E). simpl. lia. }
    lia.
Qed.

Lemma unescape_skip (a b : string) (k : nat) :
  Strings.unescape_from (String.length a + k) (a ++ b)
  = Strings.unescape_from k b.
Proof.
  induction a as [|c a IH]; [reflexivity|]. simpl. exact IH.
Qed.

Lemma leading_zeros_zeros (n : nat) (rest : string) :
  Strings.leading_zeros (zeros n ++ String "3" rest) = n
  /\ slice_from n (zeros n ++ String "3" rest) = String "3" rest.
Proof.
  induction n as [|n [IH1 IH2]]; [split; reflexivity|].
  cbn [zeros String.append Strings.leading_zeros slice_from].
  now rewrite IH1, IH2.
Qed.

Lemma zeros_length (n : nat) : String.length (zeros n) = n.
Proof.
  induction n as [|n IH]; [reflexivity|]. simpl. now rewrite IH.
Qed.

(** X18.  [unescapeHtml] reads the numeric entity of the apostrophe with
    any number of zeros before the 39, and carries on after it. *)
Theorem unescapeHtml_reads_padded_apostrophe (n : nat) (rest : string) :
  Strings.unescapeHtml ("&#" ++ zeros n ++ "39;" ++ rest)
  = String "'" (Strings.unescapeHtml rest).
Proof.
  unfold Strings.unescapeHtml.
  change ("&#" ++ zeros n ++ "39;" ++ rest)
    with (String "&" (String "#" (zeros n ++ String "3" (String "9" (String ";" rest))))).
  destruct (leading_zeros_zeros n (String "9" (String ";" rest))) as [HZ HS].
  cbn [Strings.unescape_from Ascii.eqb Bool.eqb].
  unfold Strings.entity_after_ampersand.
  cbn [startsWith Ascii.eqb Bool.eqb andb]. cbv iota.
  rewrite HZ, HS. cbn [startsWith Ascii.eqb Bool.eqb andb]. cbv iota.
  f_equal. cbn [Nat.add Strings.unescape_from].
  pose proof (unescape_skip (zeros n) (String "3" (String "9" (String ";" rest))) 3)
    as K.
  rewrite zeros_length in K. rewrite K. reflexivity.
Qed.

Lemma toUpperCase_char_twice (c : ascii) :
  toUpperCase_char (toUpperCase_char c) = toUpperCase_char c.
Proof.
  unfold toUpperCase_char. cbv zeta.
  destruct ((97 <=? nat_of_ascii c)%nat && (nat_of_ascii c <=? 122)%nat) eqn:E.
  - apply andb_true_iff in E. destruct E as [E1 E2].
    apply Nat.leb_le in E1, E2.
    rewrite nat_ascii_embedding by lia.
    replace ((97 <=? nat_of_ascii c - 32)%nat) with false; [reflexivity|].
    symmetry. apply Nat.leb_gt. lia.
  - now rewrite E.
Qed.

Lemma toLowerCase_char_twice (c : ascii) :
  toLowerCase_char (toLowerCase_char c) = toLowerCase_char c.
Proof.
  unfold toLowerCase_char. cbv zeta.
  destruct ((65 <=? nat_of_ascii c)%nat && (nat_of_ascii c <=? 90)%nat) eqn:E.
  - apply andb_true_iff in E. destruct E as [E1 E2].
    apply Nat.leb_le in E1, E2.
    rewrite nat_ascii_embedding by lia.
    replace ((nat_of_ascii c + 32 <=? 90)%nat) with false;
      [now rewrite andb_false_r|].
    symmetry. apply Nat.leb_gt. lia.
  - now rewrite E.
Qed.

Lemma toLowerCase_no_upper (s : string) :
  all_chars (fun c => negb (is_upper c)) (toLowerCase s) = true.
Proof.
  induction s as [|c s IH]; [reflexivity|].
  cbn [toLowerCase all_chars]. rewrite IH, andb_true_r.
  unfold toLowerCase_char, is_upper.
  destruct ((65 <=? nat_of_ascii c)%nat && (nat_of_ascii c <=? 90)%nat) eqn:E.
  - apply andb_true_iff in E. destruct E as [E1 E2].
    apply Nat.leb_le in E1, E2. rewrite nat_ascii_embedding by lia.
    apply negb_true_iff, andb_false_iff. right. apply Nat.leb_gt. lia.
  - now rewrite E.
Qed.

(** X20.  On a text of 7-bit characters, [capitalize] keeps the length,
    leaves no upper-case letter after the first character and no lower-case
    letter in the first, and capitalizing twice is capitalizing once. *)
Theorem capitalize_normalizes_case (str : string) :
  all_chars is_ascii_char str = true ->
  String.length (Strings.capitalize str) = String.length str
  /\ Strings.capitalize (Strings.capitalize str) = Strings.capitalize str
  /\ match Strings.capitalize str with
     | EmptyString => str = EmptyString
     | String c rest =>
         is_lower c = false
         /\ all_chars (fun c => negb (is_upper c)) rest = true
     end.
Proof.
  intros _. destruct str as [|c str]; [repeat split|].
  cbn [Strings.capitalize]. split; [|split; [|split]].
  - cbn [String.length]. f_equal.
    induction str as [|d str IH]; [reflexivity|]. simpl. now rewrite IH.
  - rewrite toUpperCase_char_twice. f_equal.
    induction str as [|d str IH]; [reflexivity|].
    cbn [toLowerCase]. now rewrite toLowerCase_char_twice, IH.
  - unfold toUpperCase_char, is_lower.
    destruct ((97 <=? nat_of_ascii c)%nat && (nat_of_ascii c <=? 122)%nat) eqn:E.
    + apply andb_true_iff in E. destruct E as [E1 E2].
      apply Nat.leb_le in E1, E2. rewrite nat_ascii_embedding by lia.
      apply andb_false_iff. left. apply Nat.leb_gt. lia.
    + exact E.
  - apply toLowerCase_no_upper.
Qed.

(** X21.  For an element whose tag name is [tp-] followed by a name, in any
    letter case, [basename] is that name with its first letter in upper case
    and the rest in lower case, and an emitted event is named after the
    lower-case tag. *)
Theorem basename_drops_the_prefix (prefix name event : string) :
  toLowerCase prefix = "tp-" ->
  Base.basename (prefix ++ name) = Strings.capitalize (toLowerCase name)
  /\ Base.event_type (prefix ++ name) event
     = "tp-" ++ toLowerCase name ++ "-" ++ event.
Proof.
  intros H.
  assert (L : forall a b, toLowerCase (a ++ b) = toLowerCase a ++ toLowerCase b).
  { intros a b. induction a as [|c a IH]; [reflexivity|].
    simpl. now rewrite IH. }
  unfold Base.basename, Base.event_type, Base.tagname. rewrite L, H.
  split; [reflexivity|]. now rewrite append_assoc.
Qed.

End EscapeFacts.


(** ** [normalizeLinesToWords] *)

Section WordsFileFacts.

Lemma includes_trimStart (c : ascii) (s : string) :
  includes c s = false -> includes c (trimStart s) = false.
Proof.
  induction s as [|a s IH]; [reflexivity|]. intros H. simpl.
  destruct (is_space a); [|exact H].
  simpl in H. apply orb_false_iff in H. now apply IH.
Qed.

Lemma includes_trimEnd (c : ascii) (s : string) :
  includes c s = false -> includes c (trimEnd s) = false.
Proof.
  induction s as [|a s IH]; [reflexivity|]. intros H.
  simpl in H. apply orb_false_iff in H. destruct H as [Ha Hs].
  specialize (IH Hs). simpl.
  destruct (trimEnd s) as [|b r].
  - destruct (is_space a); [reflexivity|]. simpl. now rewrite Ha.
  - cbn [includes]. rewrite Ha. exact IH.
Qed.

Lemma trimEnd_cons (a : ascii) (s : string) :
  trimEnd (String a s)
  = match trimEnd s with
    | EmptyString => if is_space a then EmptyString else String a EmptyString
    | String b r => String a (String b r)
    end.
Proof.
  reflexivity.
Qed.

Lemma trimEnd_twice (s : string) : trimEnd (trimEnd s) = trimEnd s.
Proof.
  induction s as [|a s IH]; [reflexivity|]. rewrite trimEnd_cons.
  destruct (trimEnd s) as [|b r] eqn:E.
  - destruct (is_space a) eqn:Ea; [reflexivity|].
    rewrite trimEnd_cons. cbn [trimEnd]. now rewrite Ea.
  - rewrite trimEnd_cons, IH. reflexivity.
Qed.

Lemma trimStart_fixed (s : string) : trimStart (trimStart s) = trimStart s.
Proof.
  induction s as [|a s IH]; [reflexivity|]. simpl.
  destruct (is_space a) eqn:Ea; [exact IH|]. simpl. now rewrite Ea.
Qed.

Lemma trimStart_of_trimEnd (s : string) :
  trimStart s = s -> trimStart (trimEnd s) = trimEnd s.
Proof.
  destruct s as [|a s]; [reflexivity|]. simpl.
  destruct (is_space a) eqn:Ea.
  - intros H. exfalso.
    assert (L : forall x, (String.length (trimStart x) <= String.length x)%nat).
    { induction x as [|b x IHx]; [apply Nat.le_refl|]. simpl.
      destruct (is_space b); simpl; lia. }
    pose proof (L s) as Hs. rewrite H in Hs. simpl in Hs. lia.
  - intros _. destruct (trimEnd s); simpl; now rewrite Ea.
Qed.

Lemma trim_twice (s : string) : trim (trim s) = trim s.
Proof.
  unfold trim.
  rewrite (trimStart_of_trimEnd (trimStart s) (trimStart_fixed s)).
  apply trimEnd_twice.
Qed.

Lemma split_lines_cons (c a : ascii) (s : string) :
  split_lines (String c (String a s))
  = if Ascii.eqb c LF then EmptyString :: split_lines (String a s)
    else if Ascii.eqb c CR && Ascii.eqb a LF then EmptyString :: split_lines s
    else match split_lines (String a s) with
         | [] => [String c EmptyString]
         | w :: ws => String c w :: ws
         end.
Proof.
  reflexivity.
Qed.

Lemma split_lines_single (c : ascii) :
  split_lines (String c EmptyString)
  = if Ascii.eqb c LF then [EmptyString; EmptyString]
    else [String c EmptyString].
Proof.
  reflexivity.
Qed.

Lemma split_lines_no_LF (s : string) :
  Forall (fun l => includes LF l = false) (split_lines s)
  /\ forall c, Forall (fun l => includes LF l = false) (split_lines (String c s)).
Proof.
  induction s as [|a s [IH1 IH2]].
  - split; [repeat constructor|]. intros c. rewrite split_lines_single.
    destruct (Ascii.eqb c LF) eqn:E; repeat constructor.
    cbn [includes]. now rewrite E.
  - split; [apply IH2|]. intros c. rewrite split_lines_cons.
    destruct (Ascii.eqb c LF) eqn:E; [constructor; [reflexivity | apply IH2]|].
    destruct (Ascii.eqb c CR && Ascii.eqb a LF);
      [constructor; [reflexivity | exact IH1]|].
    specialize (IH2 a).
    destruct (split_lines (String a s)) as [|w ws].
    + repeat constructor. cbn [includes]. now rewrite E.
    + inversion IH2 as [|? ? Hw Hws]; subst.
      constructor; [|exact Hws]. cbn [includes]. now rewrite E.
Qed.

(** X22.  Every word that [normalizeLinesToWords] returns is not empty, has
    no white space at either end and holds no line feed. *)
Theorem normalizeLinesToWords_gives_clean_words (content : string) :
  Forall clean_word (WordsFile.normalizeLinesToWords content).
Proof.
  unfold WordsFile.normalizeLinesToWords. apply Forall_forall. intros w Hw.
  apply filter_In in Hw. destruct Hw as [Hin Hne].
  apply in_map_iff in Hin. destruct Hin as (l & <- & Hl).
  pose proof (proj1 (split_lines_no_LF content)) as Hno.
  rewrite Forall_forall in Hno. specialize (Hno l Hl).
  split; [|split].
  - intros E. rewrite E in Hne. discriminate.
  - apply trim_twice.
  - unfold trim. now apply includes_trimEnd, includes_trimStart.
Qed.

Lemma trimEnd_tail (c : ascii) (w : string) :
  trimEnd (String c w) = String c w -> trimEnd w = w.
Proof.
  simpl. destruct (trimEnd w) as [|b r] eqn:E.
  - destruct (is_space c); [discriminate|]. now intros [= <-].
  - now intros [= <-].
Qed.

Lemma split_lines_whole (w : string) :
  includes LF w = false -> split_lines w = [w].
Proof.
  assert (G : forall w, (includes LF w = false -> split_lines w = [w])
                        /\ forall c, includes LF (String c w) = false ->
                                     split_lines (String c w) = [String c w]).
  { induction w0 as [|a w0 [IH1 IH2]].
    - split; [reflexivity|]. intros c H. rewrite split_lines_single.
      cbn [includes] in H. apply orb_false_iff in H. destruct H as [H _].
      now rewrite H.
    - split; [apply IH2|]. intros c H. rewrite split_lines_cons.
      cbn [includes] in H. apply orb_false_iff in H. destruct H as [Hc H].
      rewrite Hc.
      assert (Ha : Ascii.eqb a LF = false).
      { cbn [includes] in H. now apply orb_false_iff in H. }
      rewrite Ha, andb_false_r. now rewrite (IH2 a H). }
  apply G.
Qed.

Lemma split_lines_first_LF (w rest : string) :
  includes LF w = false -> trimEnd w = w ->
  split_lines (w ++ String LF rest) = w :: split_lines rest.
Proof.
  assert (E0 : split_lines (String LF rest) = EmptyString :: split_lines rest)
    by (destruct rest; reflexivity).
  assert (G : forall w,
             (includes LF w = false -> trimEnd w = w ->
              split_lines (w ++ String LF rest) = w :: split_lines rest)
             /\ forall c, includes LF (String c w) = false ->
                          trimEnd (String c w) = String c w ->
                          split_lines (String c w ++ String LF rest)
                          = String c w :: split_lines rest).
  { induction w0 as [|a w0 [IH1 IH2]].
    - split; [intros _ _; exact E0|]. intros c H T.
      cbn [String.append]. rewrite split_lines_cons.
      cbn [includes] in H. apply orb_false_iff in H. destruct H as [Hc _].
      rewrite Hc.
      assert (Hcr : Ascii.eqb c CR = false).
      { destruct (Ascii.eqb_spec c CR) as [Ec|]; [|reflexivity].
        rewrite Ec in T. discriminate T. }
      rewrite Hcr. cbn [andb]. now rewrite E0.
    - split; [apply IH2|]. intros c H T.
      cbn [String.append]. rewrite split_lines_cons.
      cbn [includes] in H. apply orb_false_iff in H. destruct H as [Hc H].
      rewrite Hc.
      assert (Ha : Ascii.eqb a LF = false).
      { cbn [includes] in H. now apply orb_false_iff in H. }
      rewrite Ha, andb_false_r.
      change (String a (w0 ++ String LF rest)) with (String a w0 ++ String LF rest).
      now rewrite (IH2 a H (trimEnd_tail c _ T)). }
  apply G.
Qed.

Lemma split_lines_first_CRLF (w rest : string) :
  includes LF w = false ->
  split_lines (w ++ String CR (String LF rest)) = w :: split_lines rest.
Proof.
  assert (E0 : split_lines (String CR (String LF rest))
               = EmptyString :: split_lines rest) by reflexivity.
  assert (G : forall w,
             (includes LF w = false ->
              split_lines (w ++ String CR (String LF rest)) = w :: split_lines rest)
             /\ forall c, includes LF (String c w) = false ->
                          split_lines (String c w ++ String CR (String LF rest))
                          = String c w :: split_lines rest).
  { induction w0 as [|a w0 [IH1 IH2]].
    - split; [intros _; exact E0|]. intros c H.
      cbn [String.append]. rewrite split_lines_cons.
      cbn [includes] in H. apply orb_false_iff in H. destruct H as [Hc _].
      rewrite Hc. change (Ascii.eqb CR LF) with false. rewrite andb_false_r.
      now rewrite E0.
    - split; [apply IH2|]. intros c H.
      cbn [String.append]. rewrite split_lines_cons.
      cbn [includes] in H. apply orb_false_iff in H. destruct H as [Hc H].
      rewrite Hc.
      assert (Ha : Ascii.eqb a LF = false).
      { cbn [includes] in H. now apply orb_false_iff in H. }
      rewrite Ha, andb_false_r.
      change (String a (w0 ++ String CR (String LF rest)))
        with (String a w0 ++ String CR (String LF rest)).
      now rewrite (IH2 a H). }
  apply G.
Qed.

Lemma split_lines_joined (sep : string) (ws : list string) :
  (forall w rest, clean_word w ->
                  split_lines (w ++ sep ++ rest) = w :: split_lines rest) ->
  Forall clean_word ws -> ws <> [] ->
  split_lines (join sep ws) = ws.
Proof.
  intros Hsep. induction ws as [|w ws IH]; [contradiction|].
  intros H _. inversion H as [|? ? Hw Hws]; subst.
  destruct ws as [|w' ws].
  - apply split_lines_whole. apply Hw.
  - change (join sep (w :: w' :: ws)) with (w ++ sep ++ join sep (w' :: ws)).
    rewrite (Hsep w _ Hw). f_equal. apply IH; [exact Hws | discriminate].
Qed.

Lemma clean_words_kept (ws : list string) :
  Forall clean_word ws ->
  filter WordsFile.nonempty (map trim ws) = ws.
Proof.
  induction ws as [|w ws IH]; [reflexivity|].
  intros H. inversion H as [|? ? (Hne & Ht & _) Hws]; subst.
  cbn [map filter]. rewrite Ht.
  destruct w as [|c w]; [contradiction|]. cbn [WordsFile.nonempty].
  now rewrite (IH Hws).
Qed.

(** X23.  A list of words of 7-bit characters, each not empty, without
    white space at its ends and without a line feed, is read back as it is
    from the file that holds them one per line, whether the lines end in LF
    or in CR LF; and [wordsFileToString] then joins exactly these words.
    (Beyond 7 bits [trim] removes more than the white space of ASCII.) *)
Theorem words_file_round_trip (ws : list string) (separator : string) :
  Forall (fun w => all_chars is_ascii_char w = true) ws ->
  Forall clean_word ws ->
  WordsFile.normalizeLinesToWords (join (String LF EmptyString) ws) = ws
  /\ WordsFile.normalizeLinesToWords
       (join (String CR (String LF EmptyString)) ws) = ws
  /\ WordsFile.wordsFileToString (join (String LF EmptyString) ws) separator
     = join separator ws.
Proof.
  intros _ H.
  assert (A : WordsFile.normalizeLinesToWords (join (String LF EmptyString) ws) = ws).
  { unfold WordsFile.normalizeLinesToWords.
    destruct ws as [|w ws]; [reflexivity|].
    rewrite split_lines_joined; [now apply clean_words_kept | | exact H | discriminate].
    intros x rest (Hne & Ht & Hlf). cbn [String.append].
    apply split_lines_first_LF; [exact Hlf|].
    unfold trim in Ht.
    rewrite <- Ht at 2. rewrite <- Ht at 1. apply trimEnd_twice. }
  split; [exact A|]. split.
  - unfold WordsFile.normalizeLinesToWords.
    destruct ws as [|w ws]; [reflexivity|].
    rewrite split_lines_joined; [now apply clean_words_kept | | exact H | discriminate].
    intros x rest (Hne & Ht & Hlf). cbn [String.append].
    now apply split_lines_first_CRLF.
  - unfold WordsFile.wordsFileToString. now rewrite A.
Qed.

End WordsFileFacts.


(** ** [sanitizeChunkName] *)

Section SanitizeFacts.

Lemma includes_replace_char (c from to : ascii) (s : string) :
  Ascii.eqb to c = false ->
  includes c s = false \/ c = from ->
  includes c (ViteConfig.replace_char from to s) = false.
Proof.
  intros Hto H. induction s as [|a s IH]; [reflexivity|].
  cbn [ViteConfig.replace_char includes].
  assert (Hs : includes c s = false \/ c = from).
  { destruct H as [H|H]; [|now right]. left.
    cbn [includes] in H. now apply orb_false_iff in H. }
  rewrite (IH Hs), orb_false_r.
  destruct (Ascii.eqb a from) eqn:E; [exact Hto|].
  destruct H as [H|H].
  - cbn [includes] in H. now apply orb_false_iff in H.
  - subst c. exact E.
Qed.

Lemma includes_strip_parent_dirs (c : ascii) (s : string) :
  includes c s = false -> includes c (ViteConfig.strip_parent_dirs s) = false.
Proof.
  assert (G : forall n s, (String.length s <= n)%nat -> includes c s = false ->
                          includes c (ViteConfig.strip_parent_dirs s) = false).
  { induction n as [|n IH]; intros s0 Hn H.
    - destruct s0; [reflexivity | simpl in Hn; lia].
    - destruct s0 as [|a [|b [|d r]]]; try exact H.
      cbn [ViteConfig.strip_parent_dirs].
      destruct (Ascii.eqb a "." && Ascii.eqb b "." && Ascii.eqb d "/");
        [|exact H].
      apply IH; [simpl in Hn; lia|].
      cbn [includes] in H.
      repeat (apply orb_false_iff in H; destruct H as [_ H]). exact H. }
  apply (G (String.length s) s (Nat.le_refl _)).
Qed.

Lemma includes_strip_slashes (c : ascii) (s : string) :
  includes c s = false -> includes c (ViteConfig.strip_slashes s) = false.
Proof.
  induction s as [|a s IH]; [reflexivity|]. intros H.
  cbn [ViteConfig.strip_slashes].
  destruct (Ascii.eqb a "/"); [|exact H].
  apply IH. cbn [includes] in H. now apply orb_false_iff in H.
Qed.

Lemma includes_remove_char (c d : ascii) (s : string) :
  includes c s = false \/ c = d ->
  includes c (ViteConfig.remove_char d s) = false.
Proof.
  intros H. induction s as [|a s IH]; [reflexivity|].
  cbn [ViteConfig.remove_char].
  assert (Hs : includes c s = false \/ c = d).
  { destruct H as [H|H]; [|now right]. left.
    cbn [includes] in H. now apply orb_false_iff in H. }
  destruct (Ascii.eqb a d) eqn:E; [exact (IH Hs)|].
  cbn [includes]. rewrite (IH Hs), orb_false_r.
  destruct H as [H|H].
  - cbn [includes] in H. now apply orb_false_iff in H.
  - subst c. exact E.
Qed.

Lemma remove_char_absent (d : ascii) (s : string) :
  includes d s = false -> ViteConfig.remove_char d s = s.
Proof.
  induction s as [|a s IH]; [reflexivity|]. intros H.
  cbn [includes] in H. apply orb_false_iff in H. destruct H as [Ha Hs].
  cbn [ViteConfig.remove_char]. now rewrite Ha, (IH Hs).
Qed.

Lemma replace_char_absent (from to : ascii) (s : string) :
  includes from s = false -> ViteConfig.replace_char from to s = s.
Proof.
  induction s as [|a s IH]; [reflexivity|]. intros H.
  cbn [includes] in H. apply orb_false_iff in H. destruct H as [Ha Hs].
  cbn [ViteConfig.replace_char]. now rewrite Ha, (IH Hs).
Qed.

Lemma strip_slashes_first (s : string) :
  first_char (ViteConfig.strip_slashes s) <> Some "/"%char.
Proof.
  induction s as [|a s IH]; [discriminate|].
  cbn [ViteConfig.strip_slashes].
  destruct (Ascii.eqb_spec a "/") as [E|E]; [exact IH|].
  cbn [first_char]. congruence.
Qed.

(** X24.  The name that [sanitizeChunkName] returns holds no backslash, no
    colon and no NUL character. *)
Theorem sanitizeChunkName_removes_unsafe_characters (name : string) :
  includes "\" (ViteConfig.sanitizeChunkName name) = false
  /\ includes ":" (ViteConfig.sanitizeChunkName name) = false
  /\ includes NUL (ViteConfig.sanitizeChunkName name) = false.
Proof.
  unfold ViteConfig.sanitizeChunkName. split; [|split].
  - apply includes_remove_char. left.
    apply includes_replace_char; [reflexivity|]. left.
    apply includes_strip_slashes, includes_strip_parent_dirs.
    apply includes_replace_char; [reflexivity | now right].
  - apply includes_remove_char. left.
    apply includes_replace_char; [reflexivity | now right].
  - apply includes_remove_char. now right.
Qed.

(** X25.  For a name without NUL characters the result of
    [sanitizeChunkName] does not begin with a slash; and a name that holds no
    backslash, colon or NUL and begins neither with a slash nor with a dot is
    returned as it is. *)
Theorem sanitizeChunkName_is_relative (name : string) :
  includes NUL name = false ->
  first_char (ViteConfig.sanitizeChunkName name) <> Some "/"%char
  /\ (includes "\" name = false -> includes ":" name = false ->
      first_char name <> Some "/"%char -> first_char name <> Some "."%char ->
      ViteConfig.sanitizeChunkName name = name).
Proof.
  intros Hnul. split.
  - unfold ViteConfig.sanitizeChunkName.
    rewrite remove_char_absent.
    + pose proof (strip_slashes_first
                    (ViteConfig.strip_parent_dirs
                       (ViteConfig.replace_char "\" "/" name))) as H.
      destruct (ViteConfig.strip_slashes
                  (ViteConfig.strip_parent_dirs
                     (ViteConfig.replace_char "\" "/" name))) as [|a s];
        [discriminate|].
      cbn [ViteConfig.replace_char first_char] in *.
      destruct (Ascii.eqb_spec a ":"); [discriminate|exact H].
    + apply includes_replace_char; [reflexivity|]. left.
      apply includes_strip_slashes, includes_strip_parent_dirs.
      apply includes_replace_char; [reflexivity | now left].
  - intros Hb Hc Hs Hd. unfold ViteConfig.sanitizeChunkName.
    rewrite (replace_char_absent "\" "/" name Hb).
    assert (E1 : ViteConfig.strip_parent_dirs name = name).
    { destruct name as [|a [|b [|d r]]]; try reflexivity.
      cbn [ViteConfig.strip_parent_dirs].
      destruct (Ascii.eqb_spec a ".") as [E|E]; [|reflexivity].
      subst a. now contradiction Hd. }
    assert (E2 : ViteConfig.strip_slashes name = name).
    { destruct name as [|a r]; [reflexivity|].
      cbn [ViteConfig.strip_slashes].
      destruct (Ascii.eqb_spec a "/") as [E|E]; [|reflexivity].
      subst a. now contradiction Hs. }
    rewrite E1, E2, (replace_char_absent ":" "_" name Hc).
    now apply remove_char_absent.
Qed.

End SanitizeFacts.


(** ** [dedent] *)

Section DedentFacts.

Lemma trimStart_all_space (s : string) :
  all_chars is_space s = true -> trimStart s = EmptyString.
Proof.
  induction s as [|a s IH]; [reflexivity|]. cbn [all_chars trimStart].
  intros H. apply andb_true_iff in H. destruct H as [Ha Hs].
  now rewrite Ha, (IH Hs).
Qed.

Lemma is_blank_all_space (s : string) :
  all_chars is_space s = true -> Strings.is_blank s = true.
Proof.
  intros H. unfold Strings.is_blank, trim.
  now rewrite (trimStart_all_space s H).
Qed.

Lemma normalize_newlines_all_space (s : string) :
  all_chars is_space s = true ->
  all_chars is_space (normalize_newlines s) = true.
Proof.
  assert (G : forall s, (all_chars is_space s = true ->
                         all_chars is_space (normalize_newlines s) = true)
                        /\ forall c, all_chars is_space (String c s) = true ->
                                     all_chars is_space
                                       (normalize_newlines (String c s)) = true).
  { induction s0 as [|a s0 [IH1 IH2]].
    - split; [reflexivity|]. intros c H. exact H.
    - split; [apply IH2|]. intros c H.
      cbn [all_chars] in H. apply andb_true_iff in H. destruct H as [Hc H].
      change (normalize_newlines (String c (String a s0)))
        with (if Ascii.eqb c CR && Ascii.eqb a LF
              then String LF (normalize_newlines s0)
              else String c (normalize_newlines (String a s0))).
      destruct (Ascii.eqb c CR && Ascii.eqb a LF).
      + cbn [all_chars]. cbn [all_chars] in H.
        apply andb_true_iff in H. destruct H as [_ H].
        now rewrite (IH1 H).
      + cbn [all_chars]. now rewrite Hc, (IH2 a H). }
  apply G.
Qed.

Lemma split_all_space (c : ascii) (s : string) :
  all_chars is_space s = true ->
  Forall (fun l => all_chars is_space l = true) (split c s).
Proof.
  induction s as [|a s IH]; [repeat constructor|].
  cbn [all_chars split]. intros H.
  apply andb_true_iff in H. destruct H as [Ha Hs]. specialize (IH Hs).
  destruct (Ascii.eqb a c); [constructor; [reflexivity | exact IH]|].
  destruct (split c s) as [|w ws].
  - repeat constructor. cbn [all_chars]. now rewrite Ha.
  - inversion IH as [|? ? Hw Hws]; subst.
    constructor; [|exact Hws]. cbn [all_chars]. now rewrite Ha, Hw.
Qed.

Lemma drop_blank_head_all_blank (lines : list string) :
  Forall (fun l => Strings.is_blank l = true) lines ->
  Strings.drop_blank_head lines = [].
Proof.
  induction lines as [|l lines IH]; [reflexivity|].
  intros H. inversion H as [|? ? Hl Hls]; subst.
  cbn [Strings.drop_blank_head]. now rewrite Hl, (IH Hls).
Qed.

(** X26.  [dedent] of a text that holds white space only, line ends
    included, is the empty string. *)
Theorem dedent_of_blank_text (input : string) :
  all_chars is_space input = true -> Strings.dedent input = EmptyString.
Proof.
  intros H. unfold Strings.dedent.
  assert (B : Forall (fun l => Strings.is_blank l = true)
                     (split LF (normalize_newlines input))).
  { apply Forall_impl with (2 := split_all_space LF _
                                   (normalize_newlines_all_space input H)).
    intros l. apply is_blank_all_space. }
  now rewrite (drop_blank_head_all_blank _ B).
Qed.

Lemma join_split (c : ascii) (s : string) :
  join (String c EmptyString) (split c s) = s.
Proof.
  induction s as [|a s IH]; [reflexivity|]. cbn [split].
  destruct (Ascii.eqb_spec a c) as [E|E].
  - subst a. destruct (split c s) as [|w ws] eqn:Es.
    + destruct s; simpl in Es; [discriminate|].
      destruct (Ascii.eqb a c); [discriminate|].
      destruct (split c s); discriminate.
    + change (join (String c EmptyString) (EmptyString :: w :: ws))
        with (String c (join (String c EmptyString) (w :: ws))).
      now rewrite IH.
  - destruct (split c s) as [|w ws] eqn:Es.
    + destruct s; simpl in Es; [discriminate|].
      destruct (Ascii.eqb a0 c); [discriminate|].
      destruct (split c s); discriminate.
    + destruct ws as [|w' ws].
      * cbn [join] in *. now rewrite IH.
      * change (join (String c EmptyString) (String a w :: w' :: ws))
          with (String a (join (String c EmptyString) (w :: w' :: ws))).
        now rewrite IH.
Qed.

Lemma normalize_newlines_without_CR (s : string) :
  includes CR s = false -> normalize_newlines s = s.
Proof.
  assert (G : forall s, (includes CR s = false -> normalize_newlines s = s)
                        /\ forall c, includes CR (String c s) = false ->
                                     normalize_newlines (String c s) = String c s).
  { induction s0 as [|a s0 [IH1 IH2]].
    - split; reflexivity.
    - split; [apply IH2|]. intros c H.
      cbn [includes] in H. apply orb_false_iff in H. destruct H as [Hc H].
      change (normalize_newlines (String c (String a s0)))
        with (if Ascii.eqb c CR && Ascii.eqb a LF
              then String LF (normalize_newlines s0)
              else String c (normalize_newlines (String a s0))).
      rewrite Hc. cbn [andb]. now rewrite (IH2 a H). }
  apply G.
Qed.

Lemma min_indent_zero (lines : list string) :
  Strings.min_indent lines (Some 0%nat) = Some 0%nat.
Proof.
  induction lines as [|l lines IH]; [reflexivity|].
  cbn [Strings.min_indent]. destruct (Strings.is_blank l); [exact IH|].
  now rewrite Nat.ltb_irrefl || (cbn [Nat.ltb Nat.leb]; exact IH).
Qed.

Lemma not_blank_first (c : ascii) (s : string) :
  is_space c = false -> Strings.is_blank (String c s) = false.
Proof.
  intros Hc. unfold Strings.is_blank, trim. rewrite (trimStart_char c s Hc).
  rewrite trimEnd_cons. destruct (trimEnd s); [now rewrite Hc | reflexivity].
Qed.

(** X27.  A text of 7-bit characters without carriage returns whose first
    character is not white space and whose last line is not blank is
    returned by [dedent] as it is.  (Beyond 7 bits [trim] takes more
    characters for white space than ASCII has.) *)
Theorem dedent_keeps_unindented_text (c : ascii) (rest : string) :
  let input := String c rest in
  all_chars is_ascii_char input = true ->
  includes CR input = false ->
  is_space c = false ->
  Strings.is_blank (last (split LF input) EmptyString) = false ->
  Strings.dedent input = input.
Proof.
  intros input _ Hcr Hc Hlast. unfold Strings.dedent.
  rewrite (normalize_newlines_without_CR input Hcr).
  assert (Hlf : Ascii.eqb c LF = false).
  { destruct (Ascii.eqb_spec c LF) as [E|E]; [|reflexivity].
    subst c. discriminate Hc. }
  pose proof (join_split LF input) as J.
  destruct (split LF input) as [|l lines] eqn:Es.
  { exfalso. unfold input in Es. cbn [split] in Es. rewrite Hlf in Es.
    destruct (split LF rest); discriminate. }
  assert (Hl : exists w, l = String c w).
  { unfold input in Es. cbn [split] in Es. rewrite Hlf in Es.
    destruct (split LF rest) as [|w ws]; injection Es as <- _; eauto. }
  destruct Hl as [w ->].
  assert (Hhead : Strings.drop_blank_head (String c w :: lines) = String c w :: lines).
  { cbn [Strings.drop_blank_head]. now rewrite (not_blank_first c w Hc). }
  assert (Htail : Strings.drop_blank_tail (String c w :: lines) = String c w :: lines).
  { unfold Strings.drop_blank_tail.
    rewrite (app_removelast_last EmptyString (l := String c w :: lines))
      by discriminate.
    rewrite rev_unit. cbn [Strings.drop_blank_head]. rewrite Hlast.
    now rewrite <- rev_unit, rev_involutive. }
  rewrite Hhead, Htail.
  cbn [Strings.min_indent]. rewrite (not_blank_first c w Hc).
  cbn [leading_space]. rewrite Hc, min_indent_zero. exact J.
Qed.

End DedentFacts.


Section DedentIndented.

Lemma split_join (c : ascii) (ls : list string) :
  Forall (fun l => includes c l = false) ls -> ls <> [] ->
  split c (join (String c EmptyString) ls) = ls.
Proof.
  induction ls as [|l ls IH]; [contradiction|].
  intros H _. inversion H as [|? ? Hl Hls]; subst.
  destruct ls as [|l' ls].
  - now apply split_whole.
  - change (join (String c EmptyString) (l :: l' :: ls))
      with (l ++ String c (join (String c EmptyString) (l' :: ls))).
    rewrite (split_first c l _ Hl). f_equal. apply IH; [exact Hls | discriminate].
Qed.

Lemma includes_join_lines (c sep : ascii) (ls : list string) :
  Ascii.eqb sep c = false ->
  Forall (fun l => includes c l = false) ls ->
  includes c (join (String sep EmptyString) ls) = false.
Proof.
  intros Hsep. induction ls as [|l ls IH]; [reflexivity|].
  intros H. inversion H as [|? ? Hl Hls]; subst.
  destruct ls as [|l' ls]; [exact Hl|].
  change (join (String sep EmptyString) (l :: l' :: ls))
    with (l ++ String sep (join (String sep EmptyString) (l' :: ls))).
  rewrite includes_app, Hl. cbn [includes orb]. now rewrite Hsep, (IH Hls).
Qed.

Lemma includes_spaces (c : ascii) (n : nat) :
  Ascii.eqb " " c = false -> includes c (spaces n) = false.
Proof.
  intros Hc. induction n as [|n IH]; [reflexivity|].
  cbn [spaces includes]. now rewrite Hc, IH.
Qed.

Lemma trimStart_spaces (n : nat) (s : string) :
  trimStart (spaces n ++ s) = trimStart s.
Proof.
  induction n as [|n IH]; [reflexivity|]. exact IH.
Qed.

Lemma is_blank_spaces (n : nat) (s : string) :
  Strings.is_blank (spaces n ++ s) = Strings.is_blank s.
Proof.
  unfold Strings.is_blank, trim. now rewrite trimStart_spaces.
Qed.

Lemma leading_space_spaces (n : nat) (s : string) :
  leading_space (spaces n ++ s) = (n + leading_space s)%nat.
Proof.
  induction n as [|n IH]; [reflexivity|].
  cbn [spaces String.append leading_space]. cbn [is_space nat_of_ascii].
  change (is_space " ") with true. cbv iota. now rewrite IH.
Qed.

Lemma startsWith_spaces (n : nat) (s : string) :
  startsWith (spaces n) (spaces n ++ s) = true
  /\ slice_from n (spaces n ++ s) = s.
Proof.
  induction n as [|n [IH1 IH2]]; [split; [now destruct s | reflexivity]|].
  cbn [spaces String.append startsWith slice_from].
  now rewrite IH1, IH2.
Qed.

Lemma min_indent_indented (n : nat) (ls : list string) :
  Strings.min_indent (map (fun l => spaces n ++ l) ls) (Some n) = Some n.
Proof.
  induction ls as [|l ls IH]; [reflexivity|].
  cbn [map Strings.min_indent].
  destruct (Strings.is_blank (spaces n ++ l)); [exact IH|].
  rewrite leading_space_spaces.
  replace (n + leading_space l <? n)%nat with false; [exact IH|].
  symmetry. apply Nat.ltb_ge. lia.
Qed.

Lemma last_map_indent (n : nat) (l : string) (ls : list string) :
  last (map (fun x => spaces n ++ x) (l :: ls)) EmptyString
  = spaces n ++ last (l :: ls) EmptyString.
Proof.
  revert l. induction ls as [|l' ls IH]; intros l; [reflexivity|].
  change (last (map (fun x => spaces n ++ x) (l :: l' :: ls)) EmptyString)
    with (last (map (fun x => spaces n ++ x) (l' :: ls)) EmptyString).
  rewrite IH. reflexivity.
Qed.

(** X19.  [dedent] removes an indentation of [n] spaces that all lines
    share: for lines of 7-bit characters without line ends inside, the first
    beginning with a character that is not white space and the last not
    blank, indenting every line by [n] spaces and joining with LF gives a
    text whose [dedent] is the lines joined with LF.  (Beyond 7 bits [trim]
    takes more characters for white space than ASCII has.) *)
Theorem dedent_removes_common_indentation
    (n : nat) (c : ascii) (w : string) (rest : list string) :
  let lines := String c w :: rest in
  Forall (fun l => all_chars is_ascii_char l = true) lines ->
  is_space c = false ->
  Forall (fun l => includes LF l = false /\ includes CR l = false) lines ->
  Strings.is_blank (last lines EmptyString) = false ->
  Strings.dedent
    (join (String LF EmptyString) (map (fun l => spaces n ++ l) lines))
  = join (String LF EmptyString) lines.
Proof.
  intros lines _ Hc Hlines Hlast.
  set (indented := map (fun l => spaces n ++ l) lines).
  assert (Hlf : Forall (fun l => includes LF l = false) indented).
  { apply Forall_forall. intros l Hl. apply in_map_iff in Hl.
    destruct Hl as (x & <- & Hx). rewrite Forall_forall in Hlines.
    rewrite includes_app, (includes_spaces LF n eq_refl).
    apply (Hlines x Hx). }
  assert (Hcr : Forall (fun l => includes CR l = false) indented).
  { apply Forall_forall. intros l Hl. apply in_map_iff in Hl.
    destruct Hl as (x & <- & Hx). rewrite Forall_forall in Hlines.
    rewrite includes_app, (includes_spaces CR n eq_refl).
    apply (Hlines x Hx). }
  unfold Strings.dedent.
  rewrite (normalize_newlines_without_CR _
             (includes_join_lines CR LF indented eq_refl Hcr)).
  rewrite (split_join LF indented Hlf ltac:(discriminate)).
  assert (Hfirst : Strings.is_blank (spaces n ++ String c w) = false)
    by (rewrite is_blank_spaces; now apply not_blank_first).
  assert (Hhead : Strings.drop_blank_head indented = indented).
  { unfold indented, lines. cbn [map Strings.drop_blank_head].
    now rewrite Hfirst. }
  assert (Htail : Strings.drop_blank_tail indented = indented).
  { unfold Strings.drop_blank_tail.
    rewrite (app_removelast_last EmptyString (l := indented)) by discriminate.
    rewrite rev_unit. cbn [Strings.drop_blank_head].
    unfold indented at 1, lines at 1. rewrite last_map_indent, is_blank_spaces.
    fold lines. rewrite Hlast.
    now rewrite <- rev_unit, rev_involutive. }
  rewrite Hhead, Htail.
  assert (Hmin : Strings.min_indent indented None = Some n).
  { unfold indented, lines. cbn [map Strings.min_indent]. rewrite Hfirst.
    rewrite leading_space_spaces. cbn [leading_space]. rewrite Hc, Nat.add_0_r.
    apply min_indent_indented. }
  rewrite Hmin. unfold indented at 1, lines at 1. cbn [map]. cbv iota.
  destruct n as [|n].
  - unfold indented. f_equal. rewrite <- (map_id lines) at 2.
    apply map_ext. reflexivity.
  - f_equal. fold lines. unfold indented. rewrite map_map.
    rewrite <- (map_id lines) at 2. apply map_ext. intros l.
    destruct (startsWith_spaces (S n) l) as [E1 E2]. now rewrite E1, E2.
Qed.

End DedentIndented.


(** ** The further properties on sample inputs *)

Lemma clamp_within_witness :
  le_num (of_Z 1) (MathsUtil.clamp (of_Z 15) (of_Z 1) (of_Z 10))
  /\ le_num (MathsUtil.clamp (of_Z 15) (of_Z 1) (of_Z 10)) (of_Z 10).
Proof.
  apply (clamp_within (of_Z 15) (of_Z 1) (of_Z 10)).
  - discriminate.
  - simpl. unfold Qle. simpl. lia.
Defined.

Lemma clamp_fixes_its_range_witness :
  (le_num (of_Z 1) (of_Z 5) -> le_num (of_Z 5) (of_Z 10) ->
   MathsUtil.clamp (of_Z 5) (of_Z 1) (of_Z 10) = of_Z 5)
  /\ MathsUtil.clamp (MathsUtil.clamp (of_Z 5) (of_Z 1) (of_Z 10)) (of_Z 1) (of_Z 10)
     = MathsUtil.clamp (of_Z 5) (of_Z 1) (of_Z 10)
  /\ MathsUtil.clamp NaN (of_Z 1) (of_Z 10) = NaN.
Proof.
  apply (clamp_fixes_its_range (of_Z 5) (of_Z 1) (of_Z 10)).
  simpl. unfold Qle. simpl. lia.
Defined.

Lemma small_integer_sample (z : Z) :
  (- 1000 <= z <= 1000)%Z -> small_integer z.
Proof.
  unfold small_integer. change (2 ^ 48)%Z with 281474976710656%Z. lia.
Qed.

Lemma clampRandom_reaches_every_integer_witness :
  (forall v : Q,
     (inject_Z (4 - 3) + (1 # 4) <= v * inject_Z (5 - 3 + 1))%Q ->
     (v * inject_Z (5 - 3 + 1) <= inject_Z (4 - 3) + (3 # 4))%Q ->
     clampRandom (Fin v) (of_Z 3) (of_Z 5) = of_Z 4)
  /\ (exists j : Z,
        (0 <= j < 2 ^ 52)%Z
        /\ clampRandom (Fin (j # 2 ^ 52)) (of_Z 3) (of_Z 5) = of_Z 4)
  /\ forall v1 v2 : Q,
       in_unit (Fin v1) -> in_unit (Fin v2) -> (v1 <= v2)%Q ->
       exists n1 n2 : Z,
         clampRandom (Fin v1) (of_Z 3) (of_Z 5) = of_Z n1
         /\ clampRandom (Fin v2) (of_Z 3) (of_Z 5) = of_Z n2
         /\ (3 <= n1)%Z /\ (n1 <= n2)%Z /\ (n2 <= 5)%Z.
Proof.
  apply (clampRandom_reaches_every_integer 3 5 4).
  - apply small_integer_sample. lia.
  - apply small_integer_sample. lia.
  - lia.
Defined.

Lemma clampRandom_inverted_range_witness :
  (exists n : Z,
     clampRandom (Fin (1 # 2)) (of_Z 5) (of_Z 3) = of_Z n /\ (3 + 1 <= n <= 5)%Z)
  /\ clampRandom zero (of_Z 5) (of_Z 3) = of_Z 5.
Proof.
  apply (clampRandom_inverted_range (Fin (1 # 2)) 5 3).
  - apply small_integer_sample. lia.
  - apply small_integer_sample. lia.
  - simpl. unfold Qle, Qlt. simpl. lia.
  - lia.
Defined.

Lemma randomInteger_within_witness :
  exists n : Z,
    MathsUtil.randomInteger (Fin (1 # 2)) (of_Z (-5)) (of_Z (-3)) = of_Z n
    /\ (-5 <= n <= -3)%Z.
Proof.
  apply (randomInteger_within (Fin (1 # 2)) (-5) (-3)).
  - apply small_integer_sample. lia.
  - apply small_integer_sample. lia.
  - simpl. unfold Qle, Qlt. simpl. lia.
  - lia.
Defined.

Lemma sin_clamped_bounded (q : Q) :
  le_num (of_Z (-1)) (Sample.sin_clamped (Fin q))
  /\ le_num (Sample.sin_clamped (Fin q)) one.
Proof.
  apply clamp_bounds; [discriminate|]. simpl. unfold Qle. simpl. lia.
Qed.

Lemma sin_clamped_unit (x : number) :
  in_unit x -> le_num zero (Sample.sin_clamped x).
Proof.
  destruct x as [| | |q]; simpl; try contradiction. intros [H0 H1].
  unfold Sample.sin_clamped. rewrite clamp_in_range; [exact H0| |].
  - simpl. apply Qle_trans with 0%Q; [|exact H0]. unfold Qle. simpl. lia.
  - simpl. now apply Qlt_le_weak.
Qed.

Lemma seeded_values_stay_in_unit_witness :
  exists value : Q,
    nth_draw Sample.sin_clamped Sample.random_zero 3 (Seeded (Fin (7 # 3)))
    = Fin value
    /\ advance Sample.sin_clamped 4 (Seeded (Fin (7 # 3))) = Seeded (Fin value)
    /\ (0 <= value)%Q /\ (value <= 1)%Q
    /\ (le_num zero (Sample.sin_clamped (Fin (7 # 3))) -> (value < 1)%Q).
Proof.
  apply (seeded_values_stay_in_unit Sample.sin_clamped Sample.random_zero
           sin_clamped_bounded sin_clamped_unit (7 # 3) 3).
Defined.

Lemma NaN_seed_breaks_titles_witness :
  let seeded := with_type "title" (with_seed (SeedNumber NaN) defaults) in
  (forall n,
     nth_draw Sample.sin_id Sample.random_zero n
       (install_generator Sample.parseFloat_nan seeded) = NaN)
  /\ generateContent Sample.sin_id Sample.random_zero Sample.parseFloat_nan
       Sample.words (with_length (Num (of_nat 3)) seeded) = None
  /\ (includes "-" "3-5" = true ->
      generateContent Sample.sin_id Sample.random_zero Sample.parseFloat_nan
        Sample.words (with_length (Str "3-5") seeded) = Some EmptyString).
Proof.
  apply (NaN_seed_breaks_titles Sample.sin_id Sample.random_zero
           Sample.parseFloat_nan Sample.words eq_refl defaults 2 "3-5").
Defined.


Lemma empty_dictionary_throws_witness :
  let this := with_type "title" (with_length (Num (of_Z 2)) defaults) in
  generateWords Sample.sin_id Sample.random_sevenths [] (of_Z 2) (Unseeded 0)
  = Some (repeat None 2, advance Sample.sin_id 2 (Unseeded 0))
  /\ (type this = "title" ->
      generateContent Sample.sin_id Sample.random_sevenths Sample.parseFloat_nan
        [] this = None)
  /\ (type this = "sentence" ->
      forall (perSentence : number) (g2 : NumberGenerator) (m : nat),
        getNumberWithinRange Sample.sin_id Sample.random_sevenths
          (wordsPerSentence this) (Unseeded 0)
        = Some (perSentence, g2) ->
        trip_count perSentence = Some (S m) ->
        generateContent Sample.sin_id Sample.random_sevenths Sample.parseFloat_nan
          [] this = None).
Proof.
  intros this.
  apply (empty_dictionary_throws Sample.sin_id Sample.random_sevenths
           Sample.parseFloat_nan this (of_Z 2) (Unseeded 0) 1 eq_refl eq_refl).
Defined.

Lemma unknown_type_gives_empty_content_witness :
  generateContent Sample.sin_id Sample.random_sevenths Sample.parseFloat_nan
    Sample.words (with_type "word" defaults) = Some EmptyString.
Proof.
  apply (unknown_type_gives_empty_content
           Sample.sin_id Sample.random_sevenths Sample.parseFloat_nan
           Sample.words (with_type "word" defaults)).
  simpl. intros [H|[H|[H|[H|[H|[H|[]]]]]]]; discriminate H.
Defined.



Lemma range_reads_two_segments_witness :
  getNumberWithinRange Sample.sin_id Sample.random_sevenths
    (Str ("3" ++ "-" ++ "5" ++ "-" ++ "7")) (Unseeded 4)
  = getNumberWithinRange Sample.sin_id Sample.random_sevenths
      (Str ("3" ++ "-" ++ "5")) (Unseeded 4).
Proof.
  apply (range_reads_two_segments Sample.sin_id Sample.random_sevenths
           "3" "5" "7" (Unseeded 4)); reflexivity.
Defined.

Lemma capitalize_normalizes_case_witness :
  String.length (Strings.capitalize "hELLO wORLD") = String.length "hELLO wORLD"
  /\ Strings.capitalize (Strings.capitalize "hELLO wORLD")
     = Strings.capitalize "hELLO wORLD"
  /\ match Strings.capitalize "hELLO wORLD" with
     | EmptyString => "hELLO wORLD" = EmptyString
     | String c rest =>
         is_lower c = false
         /\ all_chars (fun c => negb (is_upper c)) rest = true
     end.
Proof.
  apply (capitalize_normalizes_case "hELLO wORLD"). reflexivity.
Defined.

Lemma basename_drops_the_prefix_witness :
  Base.basename ("TP-" ++ "LOREM") = Strings.capitalize (toLowerCase "LOREM")
  /\ Base.event_type ("TP-" ++ "LOREM") "change"
     = "tp-" ++ toLowerCase "LOREM" ++ "-" ++ "change".
Proof.
  apply (basename_drops_the_prefix "TP-" "LOREM" "change"). reflexivity.
Defined.

Lemma sample_clean_words : Forall clean_word ["lorem"; "ipsum"].
Proof.
  repeat constructor; discriminate.
Qed.

Lemma words_file_round_trip_witness :
  WordsFile.normalizeLinesToWords (join (String LF EmptyString) ["lorem"; "ipsum"])
  = ["lorem"; "ipsum"]
  /\ WordsFile.normalizeLinesToWords
       (join (String CR (String LF EmptyString)) ["lorem"; "ipsum"])
     = ["lorem"; "ipsum"]
  /\ WordsFile.wordsFileToString
       (join (String LF EmptyString) ["lorem"; "ipsum"]) " "
     = join " " ["lorem"; "ipsum"].
Proof.
  apply (words_file_round_trip ["lorem"; "ipsum"] " ");
    [repeat constructor | exact sample_clean_words].
Defined.

Lemma sanitizeChunkName_is_relative_witness :
  first_char (ViteConfig.sanitizeChunkName "/components/lorem") <> Some "/"%char
  /\ (includes "\" "/components/lorem" = false ->
      includes ":" "/components/lorem" = false ->
      first_char "/components/lorem" <> Some "/"%char ->
      first_char "/components/lorem" <> Some "."%char ->
      ViteConfig.sanitizeChunkName "/components/lorem" = "/components/lorem").
Proof.
  apply (sanitizeChunkName_is_relative "/components/lorem"). reflexivity.
Defined.

Lemma dedent_of_blank_text_witness :
  Strings.dedent (String " " (String LF (String " " EmptyString))) = EmptyString.
Proof.
  apply (dedent_of_blank_text (String " " (String LF (String " " EmptyString)))).
  reflexivity.
Defined.

Lemma dedent_keeps_unindented_text_witness :
  Strings.dedent (String "a" (String LF "  b")) = String "a" (String LF "  b").
Proof.
  apply (dedent_keeps_unindented_text "a" (String LF "  b")); reflexivity.
Defined.

Lemma dedent_removes_common_indentation_witness :
  Strings.dedent
    (join (String LF EmptyString)
          (map (fun l => spaces 4 ++ l) ["a"; "  b"; EmptyString; "c"]))
  = join (String LF EmptyString) ["a"; "  b"; EmptyString; "c"].
Proof.
  apply (dedent_removes_common_indentation 4 "a" EmptyString
           ["  b"; EmptyString; "c"]).
  - repeat constructor.
  - reflexivity.
  - repeat constructor.
  - reflexivity.
Defined.
